(** * DictionaryReader: reading a block of dictionary attributes by key

    A shallow embedding of [src/Interpreters/DictionaryReader.h]: the
    constructor that binds one [dictHas] and N [dictGet] functions over a
    sample block, and [readKeys], which runs them for one batch of keys and
    compacts the result to the rows whose key was found.

    Conventions of the embedding:
    - a [ColumnPtr] is an [option IColumn] ([None] is [nullptr]); columns are
      immutable shared values in the source (copy-on-write pointers), so a
      copy of a block is a copy of the list of its slots;
    - a C++ exception is a [Fail] result carrying its error code; an access
      the language leaves undefined (a slot index past the end of a block,
      a dereferenced null pointer) is the failure [Undefined];
    - [readKeys] is a state transformer over a [Frame] holding every object
      the call can reach: the reader itself, the caller's key column, the
      three output references and the local working block. *)

From stdpp Require Import base list strings.
From Stdlib Require Import ZArith Lia.

Local Open Scope Z_scope.
Local Open Scope nat_scope.
Local Open Scope string_scope.
Local Open Scope list_scope.

(** ** Data types *)

(** Modelled from the spec: the data type classes ([DataTypes/*.h]) and the
    [TypeIndex] enumeration are not among the sources at hand; the reader
    only calls [getTypeId], [isNullable] and [getNestedType] on them.  The
    model keeps the unsigned integers, strings, and two parametric families
    whose members share one type index. *)
Inductive TypeIndex : Set :=
| TypeIndex_UInt8
| TypeIndex_UInt16
| TypeIndex_UInt32
| TypeIndex_UInt64
| TypeIndex_String
| TypeIndex_FixedString
| TypeIndex_Decimal32
| TypeIndex_Nullable.

Inductive DataType : Set :=
| DataTypeUInt8
| DataTypeUInt16
| DataTypeUInt32
| DataTypeUInt64
| DataTypeString
| DataTypeFixedString (n : nat)
| DataTypeDecimal32 (precision scale : nat)
| DataTypeNullable (nested : DataType).

#[global] Instance TypeIndex_eq_dec : EqDecision TypeIndex.
Proof. solve_decision. Defined.

#[global] Instance DataType_eq_dec : EqDecision DataType.
Proof. solve_decision. Defined.

Definition getTypeId (t : DataType) : TypeIndex :=
  match t with
  | DataTypeUInt8 => TypeIndex_UInt8
  | DataTypeUInt16 => TypeIndex_UInt16
  | DataTypeUInt32 => TypeIndex_UInt32
  | DataTypeUInt64 => TypeIndex_UInt64
  | DataTypeString => TypeIndex_String
  | DataTypeFixedString _ => TypeIndex_FixedString
  | DataTypeDecimal32 _ _ => TypeIndex_Decimal32
  | DataTypeNullable _ => TypeIndex_Nullable
  end.

Definition isNullable (t : DataType) : bool :=
  match t with
  | DataTypeNullable _ => true
  | _ => false
  end.

(** [typeid_cast<const DataTypeNullable &>(t).getNestedType()]; the reader
    calls it under [isNullable] only. *)
Definition getNestedType (t : DataType) : DataType :=
  match t with
  | DataTypeNullable nested => nested
  | _ => t
  end.

(** ** Failures *)

Inductive ErrorCode : Set :=
| NUMBER_OF_COLUMNS_DOESNT_MATCH
| TYPE_MISMATCH
| LOGICAL_ERROR
| SIZES_OF_COLUMNS_DOESNT_MATCH.

(** What a collaborator (function factory, resolver, dictionary function)
    raises; the reader never catches it. *)
Inductive LookupFailure : Set :=
| Raised (code : Z) (message : string).

Inductive Failure : Set :=
| Exception (message : string) (code : ErrorCode)
| Propagated (e : LookupFailure)
| Undefined.

Inductive outcome (A : Type) : Type :=
| Ok (a : A)
| Fail (f : Failure).

Arguments Ok {A} a.
Arguments Fail {A} f.

#[global] Instance outcome_ret : MRet outcome := fun A a => Ok a.

#[global] Instance outcome_bind : MBind outcome := fun A B k m =>
  match m with
  | Ok a => k a
  | Fail f => Fail f
  end.

Definition propagate {A : Type} (r : LookupFailure + A) : outcome A :=
  match r with
  | inl e => Fail (Propagated e)
  | inr a => Ok a
  end.

(** Dereferencing a pointer: null is undefined. *)
Definition deref {A : Type} (p : option A) : outcome A :=
  match p with
  | Some a => Ok a
  | None => Fail Undefined
  end.

(** ** Columns and blocks *)

Inductive Field : Set :=
| FieldUInt64 (z : Z)
| FieldString (s : string).

(** Modelled from the spec: the column classes ([Columns/*.h]) are not among
    the sources at hand.  A column is one of the vectors the reader meets,
    or a constant column of [s] equal rows. *)
Inductive IColumn : Set :=
| ColumnUInt8 (data : list Z)
| ColumnUInt16 (data : list Z)
| ColumnUInt64 (data : list Z)
| ColumnString (chars : list string)
| ColumnConst (value : Field) (s : nat).

Definition IColumn_size (c : IColumn) : nat :=
  match c with
  | ColumnUInt8 data | ColumnUInt16 data | ColumnUInt64 data => length data
  | ColumnString chars => length chars
  | ColumnConst _ s => s
  end.

Definition IColumn_cloneEmpty (c : IColumn) : IColumn :=
  match c with
  | ColumnUInt8 _ => ColumnUInt8 []
  | ColumnUInt16 _ => ColumnUInt16 []
  | ColumnUInt64 _ => ColumnUInt64 []
  | ColumnString _ => ColumnString []
  | ColumnConst value _ => ColumnConst value 0
  end.

(** Modelled from the spec: [cloneResized] is the "resized copy" of a
    column: the first [size] rows, padded with default values. *)
Definition IColumn_cloneResized (c : IColumn) (size : nat) : IColumn :=
  match c with
  | ColumnUInt8 data => ColumnUInt8 (resize size 0%Z data)
  | ColumnUInt16 data => ColumnUInt16 (resize size 0%Z data)
  | ColumnUInt64 data => ColumnUInt64 (resize size 0%Z data)
  | ColumnString chars => ColumnString (resize size "" chars)
  | ColumnConst value _ => ColumnConst value size
  end.

(** A [ColumnVector<UInt8>::Container] used as a mask: a row is kept when
    its byte is not zero. *)
Definition is_found (byte : Z) : bool := negb (byte =? 0)%Z.

Fixpoint filter_rows {A : Type} (rows : list A) (filt : list Z) : list A :=
  match rows, filt with
  | r :: rows', f :: filt' =>
      if is_found f then r :: filter_rows rows' filt' else filter_rows rows' filt'
  | _, _ => []
  end.

Definition countBytesInFilter (filt : list Z) : nat :=
  length (List.filter is_found filt).

(** Modelled from the spec: [filter] has the "standard boolean-mask filter
    semantics: keep exactly the rows where the mask is true, preserving
    order"; a mask of another length than the column is rejected. *)
Definition IColumn_filter (c : IColumn) (filt : list Z) : outcome IColumn :=
  if decide (IColumn_size c = length filt) then
    Ok match c with
       | ColumnUInt8 data => ColumnUInt8 (filter_rows data filt)
       | ColumnUInt16 data => ColumnUInt16 (filter_rows data filt)
       | ColumnUInt64 data => ColumnUInt64 (filter_rows data filt)
       | ColumnString chars => ColumnString (filter_rows chars filt)
       | ColumnConst value _ => ColumnConst value (countBytesInFilter filt)
       end
  else Fail (Exception "Size of filter doesn't match size of column." SIZES_OF_COLUMNS_DOESNT_MATCH).

(** [typeid_cast<ColumnVector<UInt8> &>(c).getData()] *)
Definition typeid_cast_ColumnUInt8 (c : IColumn) : outcome (list Z) :=
  match c with
  | ColumnUInt8 data => Ok data
  | _ => Fail (Exception "Bad cast" LOGICAL_ERROR)
  end.

(** Modelled from the spec: the block container ([Core/Block.h],
    [Core/ColumnWithTypeAndName.h]) is not among the sources at hand; the
    spec takes it as "a typed column-set container supporting clone, resize,
    named/positional insert, boolean-mask filter, and ownership transfer of
    a column out of the set".  A slot is a column pointer with its type and
    name, a block is the ordered list of its slots, and [getByPosition]
    indexes that list unchecked. *)
Record ColumnWithTypeAndName : Set := {
  column : option IColumn;
  type : DataType;
  name : string
}.

Definition with_column (elem : ColumnWithTypeAndName) (c : option IColumn)
  : ColumnWithTypeAndName :=
  {| column := c; type := type elem; name := name elem |}.

Definition with_type (elem : ColumnWithTypeAndName) (t : DataType)
  : ColumnWithTypeAndName :=
  {| column := column elem; type := t; name := name elem |}.

Abbreviation Block := (list ColumnWithTypeAndName).
Abbreviation ColumnNumbers := (list nat).

Definition columns (block : Block) : nat := length block.

Definition Block_insert (block : Block) (elem : ColumnWithTypeAndName) : Block :=
  block ++ [elem].

(** [block.getByPosition(position)]: a position past the end is undefined. *)
Definition getByPosition (block : Block) (position : nat)
  : outcome ColumnWithTypeAndName :=
  deref (block !! position).

(** [block.getByPosition(position).column = c] *)
Definition setColumn (block : Block) (position : nat) (c : option IColumn)
  : outcome Block :=
  elem ← getByPosition block position;
  Ok (<[position := with_column elem c]> block).

Definition Block_cloneEmpty (block : Block) : Block :=
  map (fun elem => with_column elem (IColumn_cloneEmpty <$> column elem)) block.

(** ** Functions

    Modelled from the spec: the function framework ([Functions/IFunction.h],
    [FunctionFactory]) is not among the sources at hand.  The spec asks for
    "a resolve/bind operation [...] that validates argument/return types and
    yields an invocable with invoke(batch, inputPositions, outputPosition,
    rowCount)", which writes its output into the designated column of the
    batch.  An executable function is given by what it computes from its
    argument slots; [IExecutableFunction_execute] reads the argument slots,
    runs it and stores the result in the result slot. *)
Record IExecutableFunction : Set := {
  executeImpl : list ColumnWithTypeAndName -> nat -> LookupFailure + IColumn
}.

Definition IExecutableFunction_execute (f : IExecutableFunction) (block : Block)
    (arguments : ColumnNumbers) (result : nat) (input_rows_count : nat)
  : outcome Block :=
  args ← mapM (getByPosition block) arguments;
  res ← propagate (executeImpl f args input_rows_count);
  setColumn block result (Some res).

Record IFunctionBase : Set := {
  getReturnType : DataType;
  prepare : Block -> ColumnNumbers -> nat -> IExecutableFunction
}.

Record IFunctionOverloadResolver : Set := {
  build : list ColumnWithTypeAndName -> LookupFailure + IFunctionBase
}.

(** The part of [Context] the reader uses: [FunctionFactory::instance().get]. *)
Record Context : Set := {
  FunctionFactory_get : string -> LookupFailure + IFunctionOverloadResolver
}.

(** The largest [size_t] (64 bits). *)
Definition SIZE_MAX : Z := (2 ^ 64 - 1)%Z.

(** ** DictionaryReader::FunctionWrapper *)

Record FunctionWrapper : Set := {
  function : IExecutableFunction;
  arg_positions : ColumnNumbers;
  result_pos : nat
}.

(** The constructor.  [block] is taken by reference but never written: the
    local [result] gets its name and type, the type is checked, and
    [result] goes out of scope. *)
Definition FunctionWrapper_new (resolver : IFunctionOverloadResolver)
    (arguments : list ColumnWithTypeAndName) (block : Block)
    (arg_positions_ : ColumnNumbers) (column_name : string)
    (expected_type : TypeIndex) : outcome FunctionWrapper :=
  prepare_function ← propagate (build resolver arguments);
  let result_pos := columns block in
  let result := {| column := None;
                   type := getReturnType prepare_function;
                   name := "get_" +:+ column_name |} in
  if decide (getTypeId (type result) ≠ expected_type) then
    Fail (Exception ("Type mismatch in dictionary reader for: " +:+ column_name)
                    TYPE_MISMATCH)
  else
    Ok {| function := prepare prepare_function block arg_positions_ result_pos;
          arg_positions := arg_positions_;
          result_pos := result_pos |}.

Definition FunctionWrapper_execute (w : FunctionWrapper) (block : Block)
    (rows : nat) : outcome Block :=
  IExecutableFunction_execute (function w) block (arg_positions w) (result_pos w) rows.

(** ** DictionaryReader

    The private members.  [function_has] is a [std::unique_ptr] that the
    constructor always sets. *)
Record DictionaryReader : Set := {
  result_header : Block;
  sample_block : Block;
  key_position : nat;
  function_has : FunctionWrapper;
  functions_get : list FunctionWrapper
}.

Abbreviation NameAndTypePair := (string * DataType)%type.

Definition makeResultBlock (names : list NameAndTypePair) : Block :=
  fold_left
    (fun block nm =>
       let column := {| column := None; type := nm.2; name := nm.1 |} in
       let column :=
         if isNullable (type column)
         then with_type column (getNestedType (type column))
         else column in
       Block_insert block column)
    names [].

(** The three argument descriptions of the constructor. *)
Definition dict_name_column (dictionary_name : string) : ColumnWithTypeAndName :=
  {| column := Some (ColumnConst (FieldString dictionary_name) 1);
     type := DataTypeString;
     name := "dict" |}.

Definition key_column_sample : ColumnWithTypeAndName :=
  {| column := None; type := DataTypeUInt64; name := "key" |}.

Definition column_name_sample : ColumnWithTypeAndName :=
  {| column := None; type := DataTypeString; name := "column" |}.

Definition arguments_has (dictionary_name : string) : list ColumnWithTypeAndName :=
  [dict_name_column dictionary_name; key_column_sample].

Definition arguments_get (dictionary_name : string) : list ColumnWithTypeAndName :=
  [dict_name_column dictionary_name; column_name_sample; key_column_sample].

(** [sample_block] as the constructor fills it, before the functions are
    bound: the dictionary name, one constant per source column, the key. *)
Definition make_sample_block (dictionary_name : string)
    (src_column_names : list string) : Block :=
  let sample_block := Block_insert [] (dict_name_column dictionary_name) in
  let sample_block :=
    fold_left
      (fun sample_block columns_name =>
         Block_insert sample_block
           {| column := Some (ColumnConst (FieldString columns_name) 1);
              type := DataTypeString;
              name := "col_" +:+ columns_name |})
      src_column_names sample_block in
  Block_insert sample_block key_column_sample.

(** The loop binding one [dictGet] per column of the result header;
    [acc] is [functions_get] so far. *)
Fixpoint bind_functions_get (dict_get : IFunctionOverloadResolver)
    (arguments_get : list ColumnWithTypeAndName) (result_header sample_block : Block)
    (key_size key_position : nat) (indices : list nat)
    (acc : list FunctionWrapper) : outcome (list FunctionWrapper) :=
  match indices with
  | [] => Ok acc
  | i :: indices' =>
      let column_name_pos := key_size + i in
      column ← getByPosition result_header i;
      let positions_get := [0; column_name_pos; key_position] in
      w ← FunctionWrapper_new dict_get arguments_get sample_block positions_get
            (name column) (getTypeId (type column));
      bind_functions_get dict_get arguments_get result_header sample_block
        key_size key_position indices' (acc ++ [w])
  end.

(** The constructor.  [key_size] and the positions are [size_t] values in
    the source; the model adds them as natural numbers, which is what the
    source computes whenever [key_size] plus the number of result columns
    does not exceed [SIZE_MAX] (past it the source wraps around). *)
Definition DictionaryReader_new (dictionary_name : string)
    (src_column_names : list string) (result_columns : list NameAndTypePair)
    (context : Context) (key_size : nat) : outcome DictionaryReader :=
  let result_header := makeResultBlock result_columns in
  let key_position := key_size + columns result_header in
  if decide (length src_column_names ≠ length result_columns) then
    Fail (Exception "Columns number mismatch in dictionary reader"
                    NUMBER_OF_COLUMNS_DOESNT_MATCH)
  else
    dict_has ← propagate (FunctionFactory_get context "dictHas");
    dict_get ← propagate (FunctionFactory_get context "dictGet");
    let sample_block := make_sample_block dictionary_name src_column_names in
    let positions_has := [0; key_position] in
    function_has ← FunctionWrapper_new dict_has (arguments_has dictionary_name)
                     sample_block positions_has "has" (getTypeId DataTypeUInt8);
    functions_get ← bind_functions_get dict_get (arguments_get dictionary_name)
                      result_header sample_block key_size key_position
                      (seq 0 (columns result_header)) [];
    Ok {| result_header := result_header;
          sample_block := sample_block;
          key_position := key_position;
          function_has := function_has;
          functions_get := functions_get |}.

(** ** readKeys

    Everything one call can reach.  [this] and [keys] are the objects the
    source takes as [const]; [out_block], [found] and [positions] are the
    caller's output references; [working_block] is the local copy of the
    sample block. *)
Record Frame : Set := {
  this : DictionaryReader;
  keys : IColumn;
  out_block : Block;
  found : list Z;
  positions : list nat;
  working_block : Block
}.

(** State and failure: a failing statement leaves the frame as it found it. *)
Definition M (A : Type) : Type := Frame -> Frame * outcome A.

#[global] Instance M_ret : MRet M := fun A a s => (s, Ok a).

#[global] Instance M_bind : MBind M := fun A B k m s =>
  match m s with
  | (s', Ok a) => k a s'
  | (s', Fail f) => (s', Fail f)
  end.

Definition gets {A : Type} (proj : Frame -> A) : M A := fun s => (s, Ok (proj s)).

Definition lift {A : Type} (r : outcome A) : M A := fun s => (s, r).

Definition set_working_block (block : Block) : M unit := fun s =>
  ({| this := this s; keys := keys s; out_block := out_block s;
      found := found s; positions := positions s; working_block := block |}, Ok ()).

Definition set_out_block (block : Block) : M unit := fun s =>
  ({| this := this s; keys := keys s; out_block := block;
      found := found s; positions := positions s;
      working_block := working_block s |}, Ok ()).

Definition set_found (data : list Z) : M unit := fun s =>
  ({| this := this s; keys := keys s; out_block := out_block s;
      found := data; positions := positions s;
      working_block := working_block s |}, Ok ()).

Definition set_positions (p : list nat) : M unit := fun s =>
  ({| this := this s; keys := keys s; out_block := out_block s;
      found := found s; positions := p;
      working_block := working_block s |}, Ok ()).

(** A statement that rewrites the working block. *)
Definition update_working_block (f : Block -> outcome Block) : M unit :=
  block ← gets working_block;
  block' ← lift (f block);
  set_working_block block'.

(** The scan that fills [positions]: [rows] are the indices still to visit,
    [pos] is the running counter.
<<
        for (size_t i = 0; i < size; ++i)
            if (found[i])
                positions[i] = pos++;
>> *)
Fixpoint scan_rows (found : list Z) (rows : list nat) (positions : list nat)
    (pos : nat) : outcome (list nat * nat) :=
  match rows with
  | [] => Ok (positions, pos)
  | i :: rows' =>
      byte ← deref (found !! i);
      if is_found byte then
        _ ← deref (positions !! i);
        scan_rows found rows' (<[i := pos]> positions) (S pos)
      else
        scan_rows found rows' positions pos
  end.

(** [for (auto & func : functions_get) func.execute(working_block, rows);] *)
Fixpoint execute_functions (functions : list FunctionWrapper) (block : Block)
    (rows : nat) : outcome Block :=
  match functions with
  | [] => Ok block
  | func :: functions' =>
      block' ← FunctionWrapper_execute func block rows;
      execute_functions functions' block' rows
  end.

(** The loop that moves the [dictGet] results into the output block. *)
Fixpoint move_columns (indices : list nat) (first_get_position : nat)
    (working_block out_block : Block) : outcome (Block * Block) :=
  match indices with
  | [] => Ok (working_block, out_block)
  | i :: indices' =>
      src_column ← getByPosition working_block (first_get_position + i);
      out_block' ← setColumn out_block i (column src_column);
      working_block' ← setColumn working_block (first_get_position + i) None;
      move_columns indices' first_get_position working_block' out_block'
  end.

(** The first statements of [readKeys]: the private copy of the sample
    block, with a resized copy of the keys installed in the key slot. *)
Definition install_keys (size : nat) : M unit :=
  this ← gets this;
  set_working_block (sample_block this);;
  keys ← gets keys;
  update_working_block (fun block =>
    setColumn block (key_position this) (Some (IColumn_cloneResized keys size))).

Definition readKeys (size : nat) : M unit :=
  this ← gets this;
  let has_position := key_position this + 1 in
  (* set keys for dictHas() *)
  install_keys size;;
  (* calculate and extract dictHas() *)
  update_working_block (fun block =>
    FunctionWrapper_execute (function_has this) block size);;
  block ← gets working_block;
  has_column ← lift (getByPosition block has_position);
  mutable_has ← lift (deref (column has_column));
  data ← lift (typeid_cast_ColumnUInt8 mutable_has);
  set_found data;;
  update_working_block (fun block => setColumn block has_position None);;
  (* set mapping form source keys to resulting rows in output block *)
  set_positions [];;
  cleared ← gets positions;
  set_positions (resize size 0 cleared);;
  found ← gets found;
  positions ← gets positions;
  scanned ← lift (scan_rows found (seq 0 size) positions 0);
  set_positions scanned.1;;
  (* set keys for dictGet(): remove not found keys *)
  block ← gets working_block;
  key_column ← lift (getByPosition block (key_position this));
  unfiltered ← lift (deref (column key_column));
  filtered ← lift (IColumn_filter unfiltered found);
  update_working_block (fun block =>
    setColumn block (key_position this) (Some filtered));;
  let rows := IColumn_size filtered in
  (* calculate dictGet() *)
  update_working_block (fun block =>
    execute_functions (functions_get this) block rows);;
  (* make result: copy header block with correct names and move data columns *)
  set_out_block (Block_cloneEmpty (result_header this));;
  let first_get_position := has_position + 1 in
  out ← gets out_block;
  block ← gets working_block;
  moved ← lift (move_columns (seq 0 (columns out)) first_get_position block out);
  set_working_block moved.1;;
  set_out_block moved.2.

(** A caller's frame before the call: empty outputs. *)
Definition call_frame (reader : DictionaryReader) (keys : IColumn) : Frame :=
  {| this := reader; keys := keys; out_block := []; found := [];
     positions := []; working_block := [] |}.

(** ** A small dictionary to run the reader on

    A dictionary [people] with two string attributes, the two functions
    over it, and a context whose factory knows them. *)
Definition people : list (Z * (string * string)) :=
  [(10%Z, ("Alice", "Paris")); (12%Z, ("Bob", "Rome"))].

Definition people_has (key : Z) : Z :=
  if existsb (fun entry => (entry.1 =? key)%Z) people then 1%Z else 0%Z.

Definition people_get (attribute : string) (key : Z) : string :=
  match find (fun entry => (entry.1 =? key)%Z) people with
  | Some (_, (person, city)) => if decide (attribute = "name") then person else city
  | None => ""
  end.

Definition dictHas_impl : IExecutableFunction :=
  {| executeImpl := fun args input_rows_count =>
       match args with
       | [_; key] =>
           match column key with
           | Some (ColumnUInt64 ids) =>
               if decide (length ids = input_rows_count)
               then inr (ColumnUInt8 (people_has <$> ids))
               else inl (Raised 9 "Sizes of columns doesn't match")
           | _ => inl (Raised 44 "Illegal column of the key argument")
           end
       | _ => inl (Raised 42 "Number of arguments doesn't match")
       end |}.

Definition dictGet_impl : IExecutableFunction :=
  {| executeImpl := fun args input_rows_count =>
       match args with
       | [_; attribute; key] =>
           match column attribute, column key with
           | Some (ColumnConst (FieldString a) _), Some (ColumnUInt64 ids) =>
               if decide (length ids = input_rows_count)
               then inr (ColumnString (people_get a <$> ids))
               else inl (Raised 9 "Sizes of columns doesn't match")
           | _, _ => inl (Raised 44 "Illegal column of an argument")
           end
       | _ => inl (Raised 42 "Number of arguments doesn't match")
       end |}.

Definition resolver_returning (t : DataType) (impl : IExecutableFunction)
  : IFunctionOverloadResolver :=
  {| build := fun _ => inr {| getReturnType := t; prepare := fun _ _ _ => impl |} |}.

Definition factory (get_type : DataType) : Context :=
  {| FunctionFactory_get := fun function_name =>
       if decide (function_name = "dictHas")
       then inr (resolver_returning DataTypeUInt8 dictHas_impl)
       else if decide (function_name = "dictGet")
       then inr (resolver_returning get_type dictGet_impl)
       else inl (Raised 46 "Unknown function") |}.

Definition people_context : Context := factory DataTypeString.

Definition people_columns : list NameAndTypePair :=
  [("name", DataTypeString); ("city", DataTypeNullable DataTypeString)].

Definition people_keys : IColumn := ColumnUInt64 [10; 11; 12; 13; 14]%Z.

(** A reader state laid out as the comment at [sample_block] documents it:
    "dictionary name, column names, key, dictHas() result, dictGet()
    results", every function bound to a result slot of its own. *)
Definition documented_reader : DictionaryReader :=
  {| result_header := makeResultBlock people_columns;
     sample_block :=
       make_sample_block "people" ["name"; "city"] ++
       [ {| column := None; type := DataTypeUInt8; name := "get_has" |};
         {| column := None; type := DataTypeString; name := "get_name" |};
         {| column := None; type := DataTypeString; name := "get_city" |} ];
     key_position := 3;
     function_has :=
       {| function := dictHas_impl; arg_positions := [0; 3]; result_pos := 4 |};
     functions_get :=
       [ {| function := dictGet_impl; arg_positions := [0; 1; 3]; result_pos := 5 |};
         {| function := dictGet_impl; arg_positions := [0; 2; 3]; result_pos := 6 |} ] |}.

(** A dictionary [prices] whose attribute is a decimal of scale 2. *)
Definition prices_context : Context := factory (DataTypeDecimal32 9 2).

(** The call on the documented layout: keys 10 .. 14, of which 10 and 12
    are in the dictionary. *)
Definition documented_call : Frame * outcome () :=
  readKeys 5 (call_frame documented_reader people_keys).

(** A call of the documented reader with a key column that [dictHas] over
    [people] does not take. *)
Definition text_keys_call : Frame * outcome () :=
  readKeys 1 (call_frame documented_reader (ColumnString ["ten"])).

(** The same call frame with another key column. *)
Definition with_keys (s : Frame) (k : IColumn) : Frame :=
  {| this := this s; keys := k; out_block := out_block s; found := found s;
     positions := positions s; working_block := working_block s |}.

(** Keys 10 .. 14 followed by two more rows. *)
Definition longer_keys : IColumn := ColumnUInt64 [10; 11; 12; 13; 14; 12; 10]%Z.

(** A caller's frame whose vectors still hold the results of an earlier
    batch, of which the first two keys were found. *)
Definition reused_frame (reader : DictionaryReader) (keys : IColumn) : Frame :=
  {| this := reader; keys := keys; out_block := [];
     found := [1; 1; 0; 0; 0]%Z; positions := [0; 1; 0; 0; 0];
     working_block := [] |}.

(** ** Closed forms used in the statements *)

(** What [makeResultBlock] leaves of a requested column. *)
Definition header_column (nm : NameAndTypePair) : ColumnWithTypeAndName :=
  {| column := None; type := getNestedType nm.2; name := nm.1 |}.

(** The constant column the constructor inserts for one source column. *)
Definition name_column (columns_name : string) : ColumnWithTypeAndName :=
  {| column := Some (ColumnConst (FieldString columns_name) 1);
     type := DataTypeString;
     name := "col_" +:+ columns_name |}.

(** The type check of one [dictGet]: the type index of the resolved return
    type against the type index of the header column. *)
Definition get_type_agrees (f_get : IFunctionBase) (nm : NameAndTypePair) : Prop :=
  getTypeId (getNestedType nm.2) = getTypeId (getReturnType f_get).

(** A statement that leaves the reader and the caller's key column as
    they are. *)
Definition keeps_inputs {A : Type} (m : M A) : Prop :=
  forall s, this (m s).1 = this s /\ keys (m s).1 = keys s.

(** An output reference after two calls: both calls wrote the same value,
    or neither wrote it. *)
Definition same_or_untouched {A : Type} (before before' after after' : A) : Prop :=
  after = after' \/ (after = before /\ after' = before').


(** * Properties *)

(** ** The constructor *)

Section Construction.

Implicit Types (names : list NameAndTypePair) (block : Block).

Lemma getNestedType_isNullable (t : DataType) :
  (if isNullable t then getNestedType t else t) = getNestedType t.
Proof. by destruct t. Qed.

Lemma makeResultBlock_map names :
  makeResultBlock names = header_column <$> names.
Proof.
  unfold makeResultBlock.
  enough (H : forall acc,
    fold_left
      (fun block nm =>
         let column := {| column := None; type := nm.2; name := nm.1 |} in
         let column :=
           if isNullable (type column)
           then with_type column (getNestedType (type column))
           else column in
         Block_insert block column) names acc = acc ++ (header_column <$> names))
    by apply (H []).
  induction names as [|[n t] names IH]; intros acc; simpl.
  - by rewrite app_nil_r.
  - rewrite IH. unfold Block_insert, header_column, with_type. simpl.
    rewrite <- app_assoc. simpl. do 3 f_equal. by destruct t.
Qed.

Lemma columns_makeResultBlock names :
  columns (makeResultBlock names) = length names.
Proof. unfold columns. by rewrite makeResultBlock_map, length_fmap. Qed.

Lemma make_sample_block_eq (dictionary_name : string) (src : list string) :
  make_sample_block dictionary_name src =
  dict_name_column dictionary_name :: (name_column <$> src) ++ [key_column_sample].
Proof.
  unfold make_sample_block, Block_insert. simpl.
  enough (H : forall acc : Block,
    fold_left (fun sample_block columns_name =>
                 sample_block ++ [name_column columns_name]) src acc
    = acc ++ (name_column <$> src)) by (unfold name_column in H; by rewrite H).
  induction src as [|c src IH]; intros acc; simpl.
  - by rewrite app_nil_r.
  - rewrite IH, <- app_assoc. done.
Qed.

Lemma columns_make_sample_block (dictionary_name : string) (src : list string) :
  columns (make_sample_block dictionary_name src) = length src + 2.
Proof.
  unfold columns. rewrite make_sample_block_eq. simpl.
  rewrite length_app, length_fmap. simpl. lia.
Qed.

(** A wrapper that was built is bound to the slot just past the end of
    the block it was given, and its resolved type passed the check. *)
Lemma FunctionWrapper_new_Ok resolver arguments block arg_positions_
    column_name expected_type w :
  FunctionWrapper_new resolver arguments block arg_positions_ column_name
    expected_type = Ok w ->
  exists f, build resolver arguments = inr f
    /\ getTypeId (getReturnType f) = expected_type
    /\ w = {| function := prepare f block arg_positions_ (columns block);
              arg_positions := arg_positions_;
              result_pos := columns block |}.
Proof.
  unfold FunctionWrapper_new.
  destruct (build resolver arguments) as [e|f]; simpl; [done|].
  case_decide as Hty; [done|]. intros [= <-].
  exists f. split_and!; [done| |done].
  by destruct (decide (getTypeId (getReturnType f) = expected_type)).
Qed.

Lemma bind_functions_get_Ok dict_get args header sample key_size key_pos
    indices acc ws :
  bind_functions_get dict_get args header sample key_size key_pos indices acc
    = Ok ws ->
  exists ws', ws = acc ++ ws'
    /\ length ws' = length indices
    /\ Forall (fun w => result_pos w = columns sample) ws'
    /\ Forall2 (fun i w =>
         arg_positions w = [0; key_size + i; key_pos]
         /\ exists elem f, header !! i = Some elem
              /\ build dict_get args = inr f
              /\ getTypeId (getReturnType f) = getTypeId (type elem)) indices ws'.
Proof.
  revert acc ws. induction indices as [|i indices IH]; intros acc ws; simpl.
  - intros [= <-]. exists []. rewrite app_nil_r. by repeat constructor.
  - unfold getByPosition.
    destruct (header !! i) as [elem|] eqn:Hi; simpl; [|done].
    destruct (FunctionWrapper_new _ _ _ _ _ _) as [w|] eqn:Hw; simpl; [|done].
    intros H. apply IH in H as (ws' & -> & Hlen & Hpos & Hargs).
    apply FunctionWrapper_new_Ok in Hw as (f & Hf & Hty & ->).
    exists (({| function := prepare f sample [0; key_size + i; key_pos] (columns sample);
                arg_positions := [0; key_size + i; key_pos];
                result_pos := columns sample |}) :: ws').
    rewrite <- app_assoc. simpl. split_and!; [done|by rewrite Hlen| |].
    + by constructor.
    + constructor; [|done]. split; [done|]. by exists elem, f.
Qed.

(** Everything a successful construction fixes. *)
Lemma DictionaryReader_new_Ok dictionary_name src names context key_size reader :
  DictionaryReader_new dictionary_name src names context key_size = Ok reader ->
  length src = length names
  /\ result_header reader = makeResultBlock names
  /\ sample_block reader = make_sample_block dictionary_name src
  /\ key_position reader = key_size + length names
  /\ result_pos (function_has reader) = length names + 2
  /\ arg_positions (function_has reader) = [0; key_size + length names]
  /\ length (functions_get reader) = length names
  /\ Forall (fun w => result_pos w = length names + 2) (functions_get reader).
Proof.
  unfold DictionaryReader_new. case_decide as Hlen; [done|].
  assert (length src = length names) as Hlen' by lia.
  destruct (FunctionFactory_get context "dictHas") as [?|dict_has]; simpl; [done|].
  destruct (FunctionFactory_get context "dictGet") as [?|dict_get]; simpl; [done|].
  destruct (FunctionWrapper_new dict_has _ _ _ _ _) as [wh|] eqn:Hh; simpl; [|done].
  destruct (bind_functions_get _ _ _ _ _ _ _ _) as [ws|] eqn:Hg; simpl; [|done].
  intros [= <-]. simpl.
  apply FunctionWrapper_new_Ok in Hh as (fh & _ & _ & ->).
  apply bind_functions_get_Ok in Hg as (ws' & -> & Hn & Hpos & _). simpl in *.
  rewrite columns_make_sample_block in *. rewrite columns_makeResultBlock in *.
  rewrite length_seq in Hn. rewrite Hlen' in *. by split_and!.
Qed.

End Construction.

(** ** The checks of the constructor *)

Section Checks.

Implicit Types (names : list NameAndTypePair) (block : Block).

Lemma FunctionWrapper_new_resolved resolver arguments block arg_positions_
    column_name expected_type f :
  build resolver arguments = inr f ->
  FunctionWrapper_new resolver arguments block arg_positions_ column_name
    expected_type =
  if decide (getTypeId (getReturnType f) ≠ expected_type) then
    Fail (Exception ("Type mismatch in dictionary reader for: " +:+ column_name)
                    TYPE_MISMATCH)
  else
    Ok {| function := prepare f block arg_positions_ (columns block);
          arg_positions := arg_positions_;
          result_pos := columns block |}.
Proof. unfold FunctionWrapper_new. by intros ->. Qed.

(** The only exception a wrapper's constructor throws itself. *)
Lemma FunctionWrapper_new_throws resolver arguments block arg_positions_
    column_name expected_type message code :
  FunctionWrapper_new resolver arguments block arg_positions_ column_name
    expected_type = Fail (Exception message code) ->
  code = TYPE_MISMATCH.
Proof.
  unfold FunctionWrapper_new.
  destruct (build resolver arguments); simpl; [done|].
  case_decide; [|done]. by intros [= _ <-].
Qed.

Lemma bind_functions_get_throws dict_get args header sample key_size key_pos
    indices acc message code :
  bind_functions_get dict_get args header sample key_size key_pos indices acc
    = Fail (Exception message code) ->
  code = TYPE_MISMATCH.
Proof.
  revert acc. induction indices as [|i indices IH]; intros acc; simpl; [done|].
  unfold getByPosition. destruct (header !! i); simpl; [|done].
  destruct (FunctionWrapper_new _ _ _ _ _ _) as [w|[]] eqn:Hw; simpl.
  - apply IH.
  - intros [= <- <-]. by apply FunctionWrapper_new_throws in Hw.
  - done.
  - done.
Qed.

Lemma bind_functions_get_mismatch dict_get args sample key_size key_pos f_get
    before nm after :
  build dict_get args = inr f_get ->
  Forall (get_type_agrees f_get) before ->
  ¬ get_type_agrees f_get nm ->
  forall earlier acc,
  bind_functions_get dict_get args
    (header_column <$> (earlier ++ before ++ nm :: after)) sample key_size key_pos
    (seq (length earlier) (length (before ++ nm :: after))) acc
  = Fail (Exception ("Type mismatch in dictionary reader for: " +:+ nm.1)
                    TYPE_MISMATCH).
Proof.
  intros Hf Hbefore Hnm. unfold get_type_agrees in *.
  induction Hbefore as [|b before Hb _ IH]; intros earlier acc; simpl.
  - unfold getByPosition. rewrite list_lookup_fmap, list_lookup_middle by done.
    simpl. rewrite (FunctionWrapper_new_resolved _ _ _ _ _ _ _ Hf). simpl.
    case_decide as Hd; [done|congruence].
  - unfold getByPosition. rewrite list_lookup_fmap, list_lookup_middle by done.
    simpl. rewrite (FunctionWrapper_new_resolved _ _ _ _ _ _ _ Hf). simpl.
    case_decide as Hd; [congruence|]. simpl.
    specialize (IH (earlier ++ [b])).
    rewrite length_app, <- app_assoc in IH. simpl in IH.
    rewrite Nat.add_1_r in IH. apply IH.
Qed.

Lemma bind_functions_get_agree dict_get args sample key_size key_pos f_get rest :
  build dict_get args = inr f_get ->
  Forall (get_type_agrees f_get) rest ->
  forall earlier acc, exists ws,
  bind_functions_get dict_get args (header_column <$> (earlier ++ rest)) sample
    key_size key_pos (seq (length earlier) (length rest)) acc = Ok ws.
Proof.
  intros Hf Hrest. unfold get_type_agrees in *.
  induction Hrest as [|b rest Hb _ IH]; intros earlier acc; simpl; [by eexists|].
  unfold getByPosition. rewrite list_lookup_fmap, list_lookup_middle by done.
  simpl. rewrite (FunctionWrapper_new_resolved _ _ _ _ _ _ _ Hf). simpl.
  case_decide as Hd; [congruence|]. simpl.
  specialize (IH (earlier ++ [b])).
  rewrite length_app, <- app_assoc in IH. simpl in IH.
  rewrite Nat.add_1_r in IH. apply IH.
Qed.

End Checks.

(** C5.  Construction throws NUMBER_OF_COLUMNS_DOESNT_MATCH exactly when the
    number of source column names differs from the number of result columns,
    and then it yields no reader. *)
Theorem column_count_mismatch (dictionary_name : string) (src : list string)
    (names : list NameAndTypePair) (context : Context) (key_size : nat) :
  let new := DictionaryReader_new dictionary_name src names context key_size in
  ((exists message, new = Fail (Exception message NUMBER_OF_COLUMNS_DOESNT_MATCH))
   <-> length src ≠ length names)
  /\ (length src ≠ length names ->
      new = Fail (Exception "Columns number mismatch in dictionary reader"
                            NUMBER_OF_COLUMNS_DOESNT_MATCH)
      /\ forall reader, new ≠ Ok reader).
Proof.
  simpl. unfold DictionaryReader_new. case_decide as Hlen.
  - split; [split; [done|by eexists]|]. intros _. by split.
  - split; [|done]. split; [|done]. intros [message H]. exfalso.
    destruct (FunctionFactory_get context "dictHas"); simpl in H; [done|].
    destruct (FunctionFactory_get context "dictGet"); simpl in H; [done|].
    destruct (FunctionWrapper_new _ _ _ _ _ _) as [wh|[]] eqn:Hh; simpl in H;
      try done.
    + destruct (bind_functions_get _ _ _ _ _ _ _ _) as [ws|[]] eqn:Hg;
        simpl in H; try done.
      injection H as -> ->. by apply bind_functions_get_throws in Hg.
    + injection H as -> ->. by apply FunctionWrapper_new_throws in Hh.
Qed.

(** C6 (as amended).  Once the column counts agree and the two functions
    resolve, construction compares type indices: it throws TYPE_MISMATCH
    naming "has" when the resolved [dictHas] does not return a UInt8;
    otherwise it throws TYPE_MISMATCH naming the first result column whose
    type, with an outer Nullable stripped, has another type index than the
    resolved [dictGet]; otherwise it yields a reader. *)
Theorem type_index_check (dictionary_name : string) (src : list string)
    (names : list NameAndTypePair) (context : Context) (key_size : nat)
    (dict_has dict_get : IFunctionOverloadResolver) (f_has : IFunctionBase) :
  length src = length names ->
  FunctionFactory_get context "dictHas" = inr dict_has ->
  FunctionFactory_get context "dictGet" = inr dict_get ->
  build dict_has (arguments_has dictionary_name) = inr f_has ->
  let new := DictionaryReader_new dictionary_name src names context key_size in
  let mismatch column_name : outcome DictionaryReader :=
    Fail (Exception ("Type mismatch in dictionary reader for: " +:+ column_name)
                    TYPE_MISMATCH) in
  (getTypeId (getReturnType f_has) ≠ TypeIndex_UInt8 -> new = mismatch "has")
  /\ (getTypeId (getReturnType f_has) = TypeIndex_UInt8 ->
      forall f_get, build dict_get (arguments_get dictionary_name) = inr f_get ->
      (forall before nm after, names = before ++ nm :: after ->
         Forall (get_type_agrees f_get) before ->
         ¬ get_type_agrees f_get nm ->
         new = mismatch nm.1)
      /\ (Forall (get_type_agrees f_get) names -> exists reader, new = Ok reader)).
Proof.
  intros Hlen Hdh Hdg Hfh. simpl. unfold DictionaryReader_new.
  case_decide; [done|]. rewrite Hdh, Hdg. simpl.
  rewrite (FunctionWrapper_new_resolved _ _ _ _ _ _ _ Hfh). simpl.
  split.
  - intros Hty. by case_decide.
  - intros Hty f_get Hfg. case_decide; [done|]. simpl.
    rewrite makeResultBlock_map. unfold columns. rewrite length_fmap. split.
    + intros before nm after -> Hbefore Hnm.
      pose proof (bind_functions_get_mismatch dict_get _
        (make_sample_block dictionary_name src) key_size
        (key_size + length (before ++ nm :: after))
        f_get before nm after Hfg Hbefore Hnm [] []) as H'.
      simpl in H'. by rewrite H'.
    + intros Hall.
      destruct (bind_functions_get_agree dict_get _
        (make_sample_block dictionary_name src) key_size
        (key_size + length names)
        f_get names Hfg Hall [] []) as [ws H'].
      simpl in H'. rewrite H'. simpl. by eexists.
Qed.

(** The check at work: [dictGet] over [people] resolves to String, so a
    UInt16 column is refused by name. *)
Lemma type_index_check_witness :
  DictionaryReader_new "people" ["name"; "age"]
    [("name", DataTypeString); ("age", DataTypeNullable DataTypeUInt16)]
    people_context 1
  = Fail (Exception "Type mismatch in dictionary reader for: age" TYPE_MISMATCH).
Proof.
  refine (proj1 (proj2 (type_index_check "people" ["name"; "age"]
    [("name", DataTypeString); ("age", DataTypeNullable DataTypeUInt16)]
    people_context 1
    (resolver_returning DataTypeUInt8 dictHas_impl)
    (resolver_returning DataTypeString dictGet_impl)
    {| getReturnType := DataTypeUInt8; prepare := fun _ _ _ => dictHas_impl |}
    eq_refl eq_refl eq_refl eq_refl) eq_refl
    {| getReturnType := DataTypeString; prepare := fun _ _ _ => dictGet_impl |}
    eq_refl)
    [("name", DataTypeString)] ("age", DataTypeNullable DataTypeUInt16) []
    eq_refl _ _).
  - repeat constructor.
  - unfold get_type_agrees. simpl. discriminate.
Defined.

(** C6 (as stated) fails: the declared Decimal(9, 4) and the resolved
    Decimal(9, 2) are different types with one type index, and the reader is
    built. *)
Lemma type_check_misses_scale :
  exists reader f_get,
    DictionaryReader_new "prices" ["price"] [("price", DataTypeDecimal32 9 4)]
      prices_context 1 = Ok reader
    /\ build (resolver_returning (DataTypeDecimal32 9 2) dictGet_impl)
         (arguments_get "prices") = inr f_get
    /\ getReturnType f_get ≠ getNestedType (DataTypeDecimal32 9 4).
Proof. do 2 eexists. split_and!; [reflexivity|reflexivity|]. simpl. discriminate. Qed.

(** ** The position scan *)

Section Scan.

Implicit Types (found : list Z) (positions : list nat).

Lemma countBytesInFilter_cons (byte : Z) found :
  countBytesInFilter (byte :: found)
  = (if is_found byte then 1 else 0) + countBytesInFilter found.
Proof. unfold countBytesInFilter. simpl. by destruct (is_found byte). Qed.

Lemma countBytesInFilter_app found found' :
  countBytesInFilter (found ++ found')
  = countBytesInFilter found + countBytesInFilter found'.
Proof.
  induction found as [|b found IH]; [done|].
  rewrite <- app_comm_cons, !countBytesInFilter_cons, IH. lia.
Qed.

(** The number of found rows before row [i] grows with [i], strictly so
    across a found row. *)
Lemma count_before_mono found (i j : nat) :
  i <= j -> countBytesInFilter (take i found) <= countBytesInFilter (take j found).
Proof.
  intros Hij. replace j with (i + (j - i)) by lia.
  rewrite <- take_take_drop, countBytesInFilter_app. lia.
Qed.

Lemma count_before_step found (i : nat) (byte : Z) :
  found !! i = Some byte ->
  countBytesInFilter (take (S i) found)
  = countBytesInFilter (take i found) + (if is_found byte then 1 else 0).
Proof.
  intros Hi. rewrite (take_S_r _ _ _ Hi), countBytesInFilter_app.
  rewrite countBytesInFilter_cons. change (countBytesInFilter []) with 0.
  destruct (is_found byte); lia.
Qed.

Lemma count_before_lt found (i j : nat) (byte : Z) :
  i < j -> found !! i = Some byte -> is_found byte = true ->
  countBytesInFilter (take i found) < countBytesInFilter (take j found).
Proof.
  intros Hij Hi Hb.
  pose proof (count_before_mono found (S i) j ltac:(lia)) as Hm.
  rewrite (count_before_step _ _ _ Hi), Hb in Hm. lia.
Qed.

(** Every index below the number of found rows is the count before some
    found row. *)
Lemma count_before_onto found (k : nat) :
  k < countBytesInFilter found ->
  exists i byte, found !! i = Some byte /\ is_found byte = true
    /\ countBytesInFilter (take i found) = k.
Proof.
  revert k. induction found as [|b found IH]; intros k.
  - unfold countBytesInFilter. simpl. lia.
  - rewrite countBytesInFilter_cons. destruct (is_found b) eqn:Hb.
    + destruct k as [|k].
      * intros _. by exists 0, b.
      * intros Hk. destruct (IH k ltac:(lia)) as (i & byte & Hi & Hbyte & Hc).
        exists (S i), byte. split_and!; [done..|].
        simpl. rewrite countBytesInFilter_cons, Hb, Hc. done.
    + intros Hk. destruct (IH k ltac:(lia)) as (i & byte & Hi & Hbyte & Hc).
      exists (S i), byte. split_and!; [done..|].
      simpl. rewrite countBytesInFilter_cons, Hb, Hc. done.
Qed.

(** The loop invariant: visiting rows [a .. a + n) with the counter at
    [pos] writes, at each found row, [pos] plus the number of found rows
    between [a] and it, and touches nothing else. *)
Lemma scan_rows_seq found (n : nat) :
  forall (a : nat) positions (pos : nat),
  a + n <= length found -> a + n <= length positions ->
  exists positions',
    scan_rows found (seq a n) positions pos
      = Ok (positions', pos + countBytesInFilter (take n (drop a found)))
    /\ length positions' = length positions
    /\ (forall i, i < a \/ a + n <= i -> positions' !! i = positions !! i)
    /\ (forall i byte, a <= i < a + n -> found !! i = Some byte ->
          positions' !! i =
            if is_found byte
            then Some (pos + countBytesInFilter (take (i - a) (drop a found)))
            else positions !! i).
Proof.
  induction n as [|n IH]; intros a positions pos Hf Hp; simpl.
  - exists positions. split_and!; [|done|done|lia].
    f_equal. f_equal. unfold countBytesInFilter. simpl. lia.
  - destruct (lookup_lt_is_Some_2 found a ltac:(lia)) as [b Hb].
    rewrite Hb. simpl. rewrite (drop_S _ _ _ Hb). simpl.
    rewrite countBytesInFilter_cons.
    destruct (is_found b) eqn:Hfb.
    + destruct (lookup_lt_is_Some_2 positions a ltac:(lia)) as [old Hold].
      rewrite Hold. simpl.
      destruct (IH (S a) (<[a := pos]> positions) (S pos)) as
        (positions' & Hscan & Hlen & Hout & Hin);
        [lia|rewrite length_insert; lia|].
      exists positions'. rewrite Hscan. rewrite length_insert in Hlen.
      split_and!; [f_equal; f_equal; lia|done| |].
      * intros i Hi. rewrite Hout by lia. apply list_lookup_insert_ne. lia.
      * intros i byte Hi Hbyte. destruct (decide (i = a)) as [->|Hne].
        -- rewrite Hout by lia. rewrite list_lookup_insert_eq by lia.
           assert (byte = b) as -> by congruence. rewrite Hfb.
           rewrite Nat.sub_diag. simpl. f_equal.
           unfold countBytesInFilter. simpl. lia.
        -- rewrite (Hin i byte) by (done || lia).
           destruct (is_found byte); [|apply list_lookup_insert_ne; lia].
           replace (i - a) with (S (i - S a)) by lia. simpl.
           rewrite countBytesInFilter_cons, Hfb. f_equal. lia.
    + destruct (IH (S a) positions pos) as
        (positions' & Hscan & Hlen & Hout & Hin); [lia..|].
      exists positions'. rewrite Hscan.
      split_and!; [done|done| |].
      * intros i Hi. apply Hout. lia.
      * intros i byte Hi Hbyte. destruct (decide (i = a)) as [->|Hne].
        -- assert (byte = b) as -> by congruence. rewrite Hfb. apply Hout. lia.
        -- rewrite (Hin i byte) by (done || lia).
           destruct (is_found byte); [|done].
           replace (i - a) with (S (i - S a)) by lia. simpl.
           rewrite countBytesInFilter_cons, Hfb. f_equal.
Qed.

End Scan.

(** The scan loop on its own.  For a mask of [size] bytes the loop, started
    on [size] zeros with the counter at 0,
    ends with the counter at the number of found rows and gives every found
    row the number of found rows before it: the found rows get the indices
    0 .. countFound - 1 in input order, the other rows keep 0. *)
Theorem position_map_scan (found : list Z) (size : nat) :
  length found = size ->
  exists positions,
    scan_rows found (seq 0 size) (resize size 0 []) 0
      = Ok (positions, countBytesInFilter found)
    /\ length positions = size
    /\ (forall i byte, found !! i = Some byte ->
          positions !! i =
            Some (if is_found byte then countBytesInFilter (take i found) else 0))
    /\ (forall i j bi bj pi pj, i < j ->
          found !! i = Some bi -> is_found bi = true ->
          found !! j = Some bj -> is_found bj = true ->
          positions !! i = Some pi -> positions !! j = Some pj ->
          pi < pj)
    /\ (forall i byte p,
          found !! i = Some byte -> is_found byte = true ->
          positions !! i = Some p ->
          p < countBytesInFilter found)
    /\ (forall k, k < countBytesInFilter found ->
          exists i byte, found !! i = Some byte /\ is_found byte = true
            /\ positions !! i = Some k).
Proof.
  intros Hsize.
  destruct (scan_rows_seq found size 0 (resize size 0 []) 0) as
    (positions & Hscan & Hlen & _ & Hin); [lia|rewrite length_resize; lia|].
  rewrite drop_0, take_ge in Hscan by lia.
  rewrite length_resize in Hlen.
  assert (Hat : forall i byte, found !! i = Some byte ->
            positions !! i =
              Some (if is_found byte then countBytesInFilter (take i found) else 0)).
  { intros i byte Hi. pose proof (lookup_lt_Some _ _ _ Hi) as Hlt.
    rewrite (Hin i byte) by (done || lia). rewrite drop_0, Nat.sub_0_r.
    destruct (is_found byte); [done|].
    rewrite resize_nil. apply lookup_replicate_2. lia. }
  exists positions. split_and!; [done|done|done| | |].
  - intros i j bi bj pi pj Hij Hi Hbi Hj Hbj Hpi Hpj.
    rewrite (Hat _ _ Hi), Hbi in Hpi. rewrite (Hat _ _ Hj), Hbj in Hpj.
    injection Hpi as <-. injection Hpj as <-.
    by apply (count_before_lt found i j bi).
  - intros i byte p Hi Hb Hp. rewrite (Hat _ _ Hi), Hb in Hp. injection Hp as <-.
    pose proof (count_before_lt found i (length found) byte
                  (lookup_lt_Some _ _ _ Hi) Hi Hb) as Hlt.
    by rewrite (take_ge found (length found)) in Hlt by lia.
  - intros k Hk. destruct (count_before_onto found k Hk) as (i & byte & Hi & Hb & Hc).
    exists i, byte. split_and!; [done..|]. by rewrite (Hat _ _ Hi), Hb, Hc.
Qed.

(** The scan on the mask [T, F, T, F, F]. *)
Lemma position_map_scan_witness :
  exists positions,
    scan_rows [1; 0; 1; 0; 0]%Z (seq 0 5) (resize 5 0 []) 0 = Ok (positions, 2)
    /\ positions = [0; 0; 1; 0; 0].
Proof.
  destruct (position_map_scan [1; 0; 1; 0; 0]%Z 5 eq_refl) as (positions & H & _).
  exists positions. split; [exact H|].
  vm_compute in H. by injection H as <-.
Defined.

(** ** Blocks and function calls *)

Section Blocks.

Implicit Types (block : Block) (w : FunctionWrapper).


Lemma getByPosition_Fail block (position : nat) f :
  getByPosition block position = Fail f ->
  f = Undefined /\ length block <= position.
Proof.
  unfold getByPosition, deref.
  destruct (block !! position) eqn:H; [done|]. intros [= <-].
  split; [done|]. by apply lookup_ge_None.
Qed.

Lemma setColumn_Ok block (position : nat) c block' :
  setColumn block position c = Ok block' ->
  exists elem, block !! position = Some elem
    /\ block' = <[position := with_column elem c]> block.
Proof.
  unfold setColumn, getByPosition, deref.
  destruct (block !! position) as [elem|]; simpl; [|done].
  intros [= <-]. by exists elem.
Qed.

Lemma setColumn_at block (position : nat) c elem :
  block !! position = Some elem ->
  setColumn block position c = Ok (<[position := with_column elem c]> block).
Proof. unfold setColumn, getByPosition, deref. by intros ->. Qed.

Lemma setColumn_Fail block (position : nat) c f :
  setColumn block position c = Fail f ->
  f = Undefined /\ length block <= position.
Proof.
  unfold setColumn. destruct (getByPosition block position) eqn:H; [done|].
  simpl. intros [= <-]. by apply getByPosition_Fail in H.
Qed.

Lemma setColumn_length block (position : nat) c block' :
  setColumn block position c = Ok block' -> length block' = length block.
Proof.
  intros (elem & _ & ->)%setColumn_Ok. apply length_insert.
Qed.

Lemma mapM_getByPosition_Fail block (arguments : ColumnNumbers) f :
  mapM (getByPosition block) arguments = Fail f -> f = Undefined.
Proof.
  induction arguments as [|a arguments IH]; simpl; [done|].
  destruct (getByPosition block a) eqn:Ha; simpl.
  - destruct (mapM (getByPosition block) arguments); simpl; [done|].
    intros [= <-]. by apply IH.
  - intros [= <-]. by apply getByPosition_Fail in Ha as [-> _].
Qed.

(** A call that returns has stored its result in the result slot and
    touched no other slot. *)
Lemma FunctionWrapper_execute_Ok w block (rows : nat) block' :
  FunctionWrapper_execute w block rows = Ok block' ->
  exists args res elem,
    mapM (getByPosition block) (arg_positions w) = Ok args
    /\ executeImpl (function w) args rows = inr res
    /\ block !! result_pos w = Some elem
    /\ block' = <[result_pos w := with_column elem (Some res)]> block.
Proof.
  unfold FunctionWrapper_execute, IExecutableFunction_execute.
  destruct (mapM _ _) as [args|] eqn:Hargs; cbn; [|done].
  destruct (executeImpl _ _ _) as [|res] eqn:Hres; cbn; [done|].
  intros (elem & Helem & ->)%setColumn_Ok. by exists args, res, elem.
Qed.

(** A failing call either propagates what the function raised or is
    undefined. *)
Lemma FunctionWrapper_execute_Fail w block (rows : nat) f :
  FunctionWrapper_execute w block rows = Fail f ->
  f = Undefined \/ exists e, f = Propagated e.
Proof.
  unfold FunctionWrapper_execute, IExecutableFunction_execute.
  destruct (mapM _ _) as [args|] eqn:Hargs; cbn.
  - destruct (executeImpl _ _ _) as [e|res]; cbn.
    + intros [= <-]. right. by exists e.
    + intros [-> _]%setColumn_Fail. by left.
  - intros [= <-]. left. by apply mapM_getByPosition_Fail in Hargs.
Qed.

(** A function bound to a slot past the end of the block cannot return. *)
Lemma FunctionWrapper_execute_past_the_end w block (rows : nat) :
  length block <= result_pos w ->
  exists f, FunctionWrapper_execute w block rows = Fail f
    /\ (f = Undefined \/ exists e, f = Propagated e).
Proof.
  intros Hpos.
  destruct (FunctionWrapper_execute w block rows) as [block'|f] eqn:H.
  - apply FunctionWrapper_execute_Ok in H as (_ & _ & elem & _ & _ & Helem & _).
    apply lookup_lt_Some in Helem. lia.
  - exists f. split; [done|]. by apply FunctionWrapper_execute_Fail in H.
Qed.

End Blocks.

(** ** Stepping through readKeys *)

Ltac unfold_readKeys :=
  cbv [readKeys install_keys update_working_block mbind M_bind gets lift
       set_working_block set_found set_positions set_out_block mret M_ret];
  cbn [this keys out_block found positions working_block].

Ltac readKeys_step :=
  match goal with
  | |- context [match ?x with Ok _ => _ | Fail _ => _ end] =>
      destruct x eqn:?;
      cbn [this keys out_block found positions working_block fst snd]
  end.

Section OnConstructedReader.

Variables (dictionary_name : string) (src : list string)
          (names : list NameAndTypePair) (context : Context) (key_size : nat)
          (reader : DictionaryReader).
Hypothesis Hnew :
  DictionaryReader_new dictionary_name src names context key_size = Ok reader.

Lemma constructed_columns : columns (sample_block reader) = length names + 2.
Proof.
  destruct (DictionaryReader_new_Ok _ _ _ _ _ _ Hnew) as (Hlen & _ & -> & _).
  rewrite columns_make_sample_block. lia.
Qed.

(** With the default key size the key slot is the last slot of the sample
    block, and there is no slot after it. *)
Lemma constructed_key_slot :
  key_size = 1 ->
  sample_block reader !! key_position reader = Some key_column_sample
  /\ sample_block reader !! (key_position reader + 1) = None.
Proof.
  intros ->.
  destruct (DictionaryReader_new_Ok _ _ _ _ _ _ Hnew) as (Hlen & _ & Hs & -> & _).
  rewrite Hs, make_sample_block_eq. split.
  - replace (1 + length names) with (S (length (name_column <$> src) + 0))
      by (rewrite length_fmap; lia).
    simpl. by rewrite lookup_app_r, Nat.add_0_r, Nat.sub_diag by lia.
  - apply lookup_ge_None. simpl. rewrite length_app, length_fmap. simpl. lia.
Qed.

(** On a reader that the constructor built, [readKeys] fails before it
    writes any output: [dictHas] is bound to a slot the working block does
    not have. *)
Lemma readKeys_constructed (size : nat) (s : Frame) :
  this s = reader ->
  exists f,
    (readKeys size s).2 = Fail f
    /\ (f = Undefined \/ exists e, f = Propagated e)
    /\ out_block (readKeys size s).1 = out_block s
    /\ found (readKeys size s).1 = found s
    /\ positions (readKeys size s).1 = positions s.
Proof.
  intros Hthis. pose proof constructed_columns as Hcols.
  destruct (DictionaryReader_new_Ok _ _ _ _ _ _ Hnew)
    as (_ & _ & _ & _ & Hpos & _).
  unfold_readKeys. rewrite Hthis. readKeys_step.
  - apply setColumn_length in Heqo.
    destruct (FunctionWrapper_execute_past_the_end (function_has reader) a size)
      as (f & -> & Hf); [unfold columns in Hcols; lia|].
    cbn. by exists f.
  - cbn. apply setColumn_Fail in Heqo as [-> _]. exists Undefined. auto.
Qed.

End OnConstructedReader.

(** ** What readKeys leaves alone *)

Section Frame.

Lemma keeps_inputs_bind {A B : Type} (m : M A) (k : A -> M B) :
  keeps_inputs m -> (forall a, keeps_inputs (k a)) -> keeps_inputs (m ≫= k).
Proof.
  intros Hm Hk s. unfold mbind, M_bind.
  destruct (Hm s) as [Ht Hkeys]. destruct (m s) as [s' [a|f]]; simpl in *.
  - destruct (Hk a s') as [Ht' Hkeys']. split; congruence.
  - done.
Qed.

Lemma keeps_inputs_gets {A : Type} (proj : Frame -> A) : keeps_inputs (gets proj).
Proof. done. Qed.

Lemma keeps_inputs_lift {A : Type} (r : outcome A) : keeps_inputs (lift r).
Proof. done. Qed.

Lemma keeps_inputs_set_working_block block : keeps_inputs (set_working_block block).
Proof. done. Qed.

Lemma keeps_inputs_set_out_block block : keeps_inputs (set_out_block block).
Proof. done. Qed.

Lemma keeps_inputs_set_found data : keeps_inputs (set_found data).
Proof. done. Qed.

Lemma keeps_inputs_set_positions p : keeps_inputs (set_positions p).
Proof. done. Qed.

Create HintDb frame discriminated.

#[local] Hint Resolve keeps_inputs_gets keeps_inputs_lift
  keeps_inputs_set_working_block keeps_inputs_set_out_block
  keeps_inputs_set_found keeps_inputs_set_positions : frame.

Ltac keeps_inputs_tac :=
  repeat first
    [ progress cbv zeta
    | apply keeps_inputs_bind; [|intros ?]
    | solve [auto with frame] ].

Lemma keeps_inputs_update_working_block f :
  keeps_inputs (update_working_block f).
Proof. unfold update_working_block. keeps_inputs_tac. Qed.

#[local] Hint Resolve keeps_inputs_update_working_block : frame.

Lemma keeps_inputs_install_keys (size : nat) : keeps_inputs (install_keys size).
Proof. unfold install_keys. keeps_inputs_tac. Qed.

#[local] Hint Resolve keeps_inputs_install_keys : frame.

Lemma keeps_inputs_readKeys (size : nat) : keeps_inputs (readKeys size).
Proof. unfold readKeys. keeps_inputs_tac. Qed.

End Frame.

(** C8.  Whatever its outcome, [readKeys] leaves the reader (result header,
    sample block, bound functions) and the caller's key column as they were;
    its first statements copy the sample block into the working block and
    put a resized copy of the keys in the key slot of that copy. *)
Theorem readKeys_keeps_reader_and_keys (size : nat) (s : Frame) :
  (this (readKeys size s).1 = this s /\ keys (readKeys size s).1 = keys s)
  /\ (forall key_slot,
        sample_block (this s) !! key_position (this s) = Some key_slot ->
        install_keys size s =
        ({| this := this s; keys := keys s; out_block := out_block s;
            found := found s; positions := positions s;
            working_block :=
              <[key_position (this s) :=
                  with_column key_slot (Some (IColumn_cloneResized (keys s) size))]>
                (sample_block (this s)) |}, Ok ())).
Proof.
  split; [apply keeps_inputs_readKeys|].
  intros key_slot Hslot. unfold_readKeys.
  by rewrite (setColumn_at _ _ _ _ Hslot).
Qed.

(** ** Two calls *)

(** The previous contents of the outputs and of the working block do not
    matter: from two frames with the same reader and the same keys,
    [readKeys] has the same outcome and writes the same outputs. *)
Lemma readKeys_outputs_irrelevant (size : nat) (s t : Frame) :
  this s = this t -> keys s = keys t ->
  (readKeys size s).2 = (readKeys size t).2
  /\ same_or_untouched (out_block s) (out_block t)
       (out_block (readKeys size s).1) (out_block (readKeys size t).1)
  /\ same_or_untouched (found s) (found t)
       (found (readKeys size s).1) (found (readKeys size t).1)
  /\ same_or_untouched (positions s) (positions t)
       (positions (readKeys size s).1) (positions (readKeys size t).1).
Proof.
  destruct s, t. cbn. intros -> ->. unfold same_or_untouched. unfold_readKeys.
  repeat readKeys_step; cbn; split_and!; auto.
Qed.

(** C9.  Calling [readKeys] again with the same reader and the same keys,
    on the frame the first call left, has the same outcome and leaves the
    same output block, found mask and positions. *)
Theorem readKeys_twice (size : nat) (s : Frame) :
  let first := readKeys size s in
  let second := readKeys size first.1 in
  second.2 = first.2
  /\ out_block second.1 = out_block first.1
  /\ found second.1 = found first.1
  /\ positions second.1 = positions first.1.
Proof.
  simpl. destruct (keeps_inputs_readKeys size s) as [Hthis Hkeys].
  destruct (readKeys_outputs_irrelevant size s (readKeys size s).1)
    as (Hr & Ho & Hf & Hp); [done..|].
  unfold same_or_untouched in *. split_and!; [done| | |].
  - destruct Ho as [Ho|[_ Ho]]; congruence.
  - destruct Hf as [Hf|[_ Hf]]; congruence.
  - destruct Hp as [Hp|[_ Hp]]; congruence.
Qed.

(** The documented example called a second time, on the frame the first
    call left: it completes again with the same outputs. *)
Example documented_call_again :
  (readKeys 5 documented_call.1).2 = Ok ()
  /\ out_block (readKeys 5 documented_call.1).1 = out_block documented_call.1
  /\ found (readKeys 5 documented_call.1).1 = [1; 0; 1; 0; 0]%Z
  /\ positions (readKeys 5 documented_call.1).1 = [0; 0; 1; 0; 0].
Proof. by vm_compute. Qed.

(** ** Where the results of the functions go *)

(** C3.  A reader that the constructor built binds [dictHas] and every
    [dictGet] to one and the same result position, the number of columns of
    the sample block, where the sample block has no slot: the functions have
    no result columns of their own. *)
Theorem results_share_one_slot (dictionary_name : string) (src : list string)
    (names : list NameAndTypePair) (context : Context) (key_size : nat)
    (reader : DictionaryReader) :
  DictionaryReader_new dictionary_name src names context key_size = Ok reader ->
  result_pos (function_has reader) = columns (sample_block reader)
  /\ length (functions_get reader) = length names
  /\ Forall (fun w => result_pos w = result_pos (function_has reader))
       (functions_get reader)
  /\ sample_block reader !! result_pos (function_has reader) = None.
Proof.
  intros Hnew. pose proof (constructed_columns _ _ _ _ _ _ Hnew) as Hcols.
  destruct (DictionaryReader_new_Ok _ _ _ _ _ _ Hnew)
    as (_ & _ & _ & _ & Hhas & _ & Hlen & Hget).
  rewrite Hhas, Hcols. split_and!; [done..|].
  apply lookup_ge_None. unfold columns in Hcols. lia.
Qed.

Lemma results_share_one_slot_witness :
  exists reader,
    DictionaryReader_new "people" ["name"; "city"] people_columns people_context 1
      = Ok reader
    /\ (result_pos (function_has reader) = columns (sample_block reader)
        /\ length (functions_get reader) = length people_columns
        /\ Forall (fun w => result_pos w = result_pos (function_has reader))
             (functions_get reader)
        /\ sample_block reader !! result_pos (function_has reader) = None).
Proof.
  eexists. split; [reflexivity|].
  exact (results_share_one_slot "people" ["name"; "city"] people_columns
           people_context 1 _ eq_refl).
Defined.

(** C10.  On a reader built with the default key size the sample block ends
    with the key slot: no block of its size has a slot at the position
    [readKeys] extracts the [dictHas] result from, and the call fails before
    the found mask is written. *)
Theorem has_result_slot_missing (dictionary_name : string) (src : list string)
    (names : list NameAndTypePair) (context : Context)
    (reader : DictionaryReader) (size : nat) (s : Frame) :
  DictionaryReader_new dictionary_name src names context 1 = Ok reader ->
  this s = reader ->
  (forall block : Block,
     columns block = columns (sample_block reader) ->
     getByPosition block (key_position reader + 1) = Fail Undefined)
  /\ exists f, (readKeys size s).2 = Fail f
       /\ found (readKeys size s).1 = found s.
Proof.
  intros Hnew Hthis. split.
  - intros block Hblock.
    destruct (constructed_key_slot _ _ _ _ _ _ Hnew eq_refl) as [_ Hnone].
    apply lookup_ge_None in Hnone.
    unfold getByPosition, columns in *.
    by rewrite (proj2 (lookup_ge_None block _)) by lia.
  - destruct (readKeys_constructed _ _ _ _ _ _ Hnew size s Hthis)
      as (f & Hf & _ & _ & Hfound & _).
    by exists f.
Qed.

Lemma has_result_slot_missing_witness :
  exists reader,
    DictionaryReader_new "people" ["name"; "city"] people_columns people_context 1
      = Ok reader
    /\ ((forall block : Block,
           columns block = columns (sample_block reader) ->
           getByPosition block (key_position reader + 1) = Fail Undefined)
        /\ exists f,
             (readKeys 5 (call_frame reader people_keys)).2 = Fail f
             /\ found (readKeys 5 (call_frame reader people_keys)).1 = []).
Proof.
  eexists. split; [reflexivity|].
  exact (has_result_slot_missing "people" ["name"; "city"] people_columns
           people_context _ 5 (call_frame _ people_keys) eq_refl eq_refl).
Defined.

(** C4.  On a reader that the constructor built, a call returns no found
    mask and no positions: it fails, and both vectors are as the caller
    passed them. *)
Theorem found_and_positions_not_written (dictionary_name : string)
    (src : list string) (names : list NameAndTypePair) (context : Context)
    (key_size : nat) (reader : DictionaryReader) (size : nat) (s : Frame) :
  DictionaryReader_new dictionary_name src names context key_size = Ok reader ->
  this s = reader ->
  (readKeys size s).2 ≠ Ok ()
  /\ found (readKeys size s).1 = found s
  /\ positions (readKeys size s).1 = positions s.
Proof.
  intros Hnew Hthis.
  destruct (readKeys_constructed _ _ _ _ _ _ Hnew size s Hthis)
    as (f & Hf & _ & _ & Hfound & Hpositions).
  rewrite Hf. by split_and!.
Qed.

Lemma found_and_positions_not_written_witness :
  exists reader,
    DictionaryReader_new "people" ["name"; "city"] people_columns people_context 1
      = Ok reader
    /\ ((readKeys 5 (call_frame reader people_keys)).2 ≠ Ok ()
        /\ found (readKeys 5 (call_frame reader people_keys)).1 = []
        /\ positions (readKeys 5 (call_frame reader people_keys)).1 = []).
Proof.
  eexists. split; [reflexivity|].
  exact (found_and_positions_not_written "people" ["name"; "city"]
           people_columns people_context 1 _ 5 (call_frame _ people_keys)
           eq_refl eq_refl).
Defined.

(** C1.  On a reader that the constructor built no position map is
    built: the call fails before the scan, and [positions] holds what the
    caller passed, whatever stood in it. *)
Theorem position_map_not_built (dictionary_name : string) (src : list string)
    (names : list NameAndTypePair) (context : Context) (key_size : nat)
    (reader : DictionaryReader) (size : nat) (s : Frame) :
  DictionaryReader_new dictionary_name src names context key_size = Ok reader ->
  this s = reader ->
  positions (readKeys size s).1 = positions s
  /\ exists f, (readKeys size s).2 = Fail f
       /\ (f = Undefined \/ exists e, f = Propagated e).
Proof.
  intros Hnew Hthis.
  destruct (readKeys_constructed _ _ _ _ _ _ Hnew size s Hthis)
    as (f & Hf & Hkind & _ & _ & Hpositions).
  split; [done|]. by exists f.
Qed.

(** Keys 10 .. 14, of which 10 and 12 are in the dictionary, on a frame
    that still holds the positions of an earlier batch: they stay. *)
Lemma position_map_not_built_witness :
  exists reader,
    DictionaryReader_new "people" ["name"; "city"] people_columns people_context 1
      = Ok reader
    /\ (positions (readKeys 5 (reused_frame reader people_keys)).1 = [0; 1; 0; 0; 0]
        /\ exists f, (readKeys 5 (reused_frame reader people_keys)).2 = Fail f
             /\ (f = Undefined \/ exists e, f = Propagated e)).
Proof.
  eexists. split; [reflexivity|].
  exact (position_map_not_built "people" ["name"; "city"] people_columns
           people_context 1 _ 5 (reused_frame _ people_keys) eq_refl eq_refl).
Defined.

(** C7.  On a reader that the constructor built, the call for an empty
    batch of keys fails like any other, and the output block is not
    written. *)
Theorem empty_batch_fails (dictionary_name : string) (src : list string)
    (names : list NameAndTypePair) (context : Context) (key_size : nat)
    (reader : DictionaryReader) (s : Frame) :
  DictionaryReader_new dictionary_name src names context key_size = Ok reader ->
  this s = reader ->
  keys s = ColumnUInt64 [] ->
  exists f, (readKeys 0 s).2 = Fail f
    /\ (f = Undefined \/ exists e, f = Propagated e)
    /\ out_block (readKeys 0 s).1 = out_block s.
Proof.
  intros Hnew Hthis _.
  destruct (readKeys_constructed _ _ _ _ _ _ Hnew 0 s Hthis)
    as (f & Hf & Hkind & Hout & _).
  by exists f.
Qed.

Lemma empty_batch_fails_witness :
  exists reader,
    DictionaryReader_new "people" ["name"; "city"] people_columns people_context 1
      = Ok reader
    /\ exists f, (readKeys 0 (call_frame reader (ColumnUInt64 []))).2 = Fail f
         /\ (f = Undefined \/ exists e, f = Propagated e)
         /\ out_block (readKeys 0 (call_frame reader (ColumnUInt64 []))).1 = [].
Proof.
  eexists. split; [reflexivity|].
  exact (empty_batch_fails "people" ["name"; "city"] people_columns
           people_context 1 _ (call_frame _ (ColumnUInt64 [])) eq_refl eq_refl
           eq_refl).
Defined.

(** ** Names and types of the output block *)

Section Completed.

Implicit Types (block out : Block).

Lemma length_filter_rows {A : Type} (rows : list A) (filt : list Z) :
  length rows = length filt ->
  length (filter_rows rows filt) = countBytesInFilter filt.
Proof.
  revert filt. induction rows as [|r rows IH]; intros [|b filt]; simpl; try done.
  intros [= Hlen]. rewrite countBytesInFilter_cons.
  destruct (is_found b); simpl; by rewrite IH.
Qed.





End Completed.




(** ** One resolution for every dictGet *)

(** Every [dictGet] of a built reader was resolved from the same argument
    description, and its return type passed the check against its column. *)
Lemma DictionaryReader_new_get_types (dictionary_name : string)
    (src : list string) (names : list NameAndTypePair) (context : Context)
    (key_size : nat) (reader : DictionaryReader) :
  DictionaryReader_new dictionary_name src names context key_size = Ok reader ->
  exists dict_get,
    FunctionFactory_get context "dictGet" = inr dict_get
    /\ forall nm, nm ∈ names ->
         exists f_get,
           build dict_get (arguments_get dictionary_name) = inr f_get
           /\ get_type_agrees f_get nm.
Proof.
  unfold DictionaryReader_new. case_decide as Hlen; [done|].
  destruct (FunctionFactory_get context "dictHas") as [?|dict_has]; simpl; [done|].
  destruct (FunctionFactory_get context "dictGet") as [?|dict_get]; simpl; [done|].
  destruct (FunctionWrapper_new dict_has _ _ _ _ _) as [wh|]; simpl; [|done].
  destruct (bind_functions_get _ _ _ _ _ _ _ _) as [ws|] eqn:Hg; simpl; [|done].
  intros _. exists dict_get. split; [done|].
  apply bind_functions_get_Ok in Hg as (ws' & _ & _ & _ & Htypes).
  intros nm (i & Hi)%list_elem_of_lookup.
  rewrite makeResultBlock_map in Htypes. unfold columns in Htypes.
  rewrite length_fmap in Htypes.
  assert (seq 0 (length names) !! i = Some i) as Hseq.
  { apply lookup_seq. split; [done|]. by eapply lookup_lt_Some. }
  destruct (Forall2_lookup_l _ _ _ _ _ Htypes Hseq)
    as (w & _ & _ & elem & f_get & Helem & Hf & Hty).
  rewrite list_lookup_fmap, Hi in Helem. injection Helem as <-.
  exists f_get. split; [done|]. unfold get_type_agrees. by rewrite Hty.
Qed.

(** A reader is built only for requested columns that all have one type
    index (an outer Nullable stripped): the argument description every
    [dictGet] is resolved from does not depend on the column. *)
Theorem requested_columns_share_type_index (dictionary_name : string)
    (src : list string) (names : list NameAndTypePair) (context : Context)
    (key_size : nat) (reader : DictionaryReader) (nm nm' : NameAndTypePair) :
  DictionaryReader_new dictionary_name src names context key_size = Ok reader ->
  nm ∈ names -> nm' ∈ names ->
  getTypeId (getNestedType nm.2) = getTypeId (getNestedType nm'.2).
Proof.
  intros Hnew Hnm Hnm'.
  destruct (DictionaryReader_new_get_types _ _ _ _ _ _ Hnew) as (dict_get & _ & H).
  destruct (H nm Hnm) as (f & Hf & Hty).
  destruct (H nm' Hnm') as (f' & Hf' & Hty').
  assert (f' = f) as -> by congruence.
  unfold get_type_agrees in *. congruence.
Qed.

Lemma requested_columns_share_type_index_witness :
  exists reader,
    DictionaryReader_new "people" ["name"; "city"] people_columns people_context 1
      = Ok reader
    /\ getTypeId (getNestedType DataTypeString)
       = getTypeId (getNestedType (DataTypeNullable DataTypeString)).
Proof.
  eexists. split; [reflexivity|].
  refine (requested_columns_share_type_index "people" ["name"; "city"]
            people_columns people_context 1 _ ("name", DataTypeString)
            ("city", DataTypeNullable DataTypeString) eq_refl _ _).
  - apply list_elem_of_here.
  - apply list_elem_of_further, list_elem_of_here.
Defined.

(** * Further properties *)

(** ** Positions against the filtered rows *)

Section PositionsAndFilter.

Context {A : Type}.
Implicit Types (rows : list A) (found : list Z).

(** A found row sits, in the filtered rows, at the number of found rows
    before it. *)
Lemma filter_rows_lookup rows found (i : nat) (r : A) (byte : Z) :
  rows !! i = Some r -> found !! i = Some byte -> is_found byte = true ->
  filter_rows rows found !! countBytesInFilter (take i found) = Some r.
Proof.
  revert found i.
  induction rows as [|r0 rows IH]; intros [|b0 found] i; try done.
  destruct i as [|i]; simpl.
  - intros [= ->] [= ->] ->. done.
  - intros Hr Hb Hfound. rewrite countBytesInFilter_cons.
    destruct (is_found b0); simpl; by apply IH.
Qed.

Lemma filter_rows_length_le rows found :
  length (filter_rows rows found) <= countBytesInFilter found.
Proof.
  revert found. induction rows as [|r0 rows IH]; intros [|b0 found]; simpl;
    try lia.
  rewrite countBytesInFilter_cons. specialize (IH found).
  destruct (is_found b0); simpl; lia.
Qed.

End PositionsAndFilter.

(** The position map and the mask filter fit together: after the scan of
    [readKeys] over a mask of [size] bytes, the rows that the filter keeps
    are as many as the final counter, a found row [i] is row [positions[i]]
    of the filtered rows, and every filtered row is the row of some found
    row. *)
Theorem positions_index_filtered_rows {A : Type} (rows : list A)
    (found : list Z) (size : nat) (positions : list nat) (pos : nat) :
  length found = size -> length rows = size ->
  scan_rows found (seq 0 size) (resize size 0 []) 0 = Ok (positions, pos) ->
  length (filter_rows rows found) = pos
  /\ (forall i byte r,
        found !! i = Some byte -> is_found byte = true -> rows !! i = Some r ->
        exists p, positions !! i = Some p /\ filter_rows rows found !! p = Some r)
  /\ (forall k r,
        filter_rows rows found !! k = Some r ->
        exists i byte, found !! i = Some byte /\ is_found byte = true
          /\ positions !! i = Some k /\ rows !! i = Some r).
Proof.
  intros Hfound Hrows Hscan.
  destruct (scan_rows_seq found size 0 (resize size 0 []) 0)
    as (positions' & Hscan' & _ & _ & Hin); [lia|rewrite length_resize; lia|].
  rewrite Hscan in Hscan'. injection Hscan' as <- ->.
  rewrite drop_0, take_ge by lia.
  assert (Hat : forall i byte, found !! i = Some byte -> is_found byte = true ->
            positions !! i = Some (countBytesInFilter (take i found))).
  { intros i byte Hi Hb. pose proof (lookup_lt_Some _ _ _ Hi).
    rewrite (Hin i byte) by (done || lia). by rewrite Hb, drop_0, Nat.sub_0_r. }
  split_and!.
  - apply length_filter_rows. lia.
  - intros i byte r Hi Hb Hr. exists (countBytesInFilter (take i found)).
    split; [by eapply Hat|]. by eapply filter_rows_lookup.
  - intros k r Hk.
    assert (k < countBytesInFilter found) as Hlt.
    { apply lookup_lt_Some in Hk.
      pose proof (filter_rows_length_le rows found). lia. }
    destruct (count_before_onto found k Hlt) as (i & byte & Hi & Hb & Hc).
    destruct (lookup_lt_is_Some_2 rows i) as [r' Hr'].
    { apply lookup_lt_Some in Hi. lia. }
    exists i, byte. split_and!; [done|done|by rewrite (Hat _ _ Hi Hb), Hc|].
    pose proof (filter_rows_lookup rows found i r' byte Hr' Hi Hb) as Hk'.
    rewrite Hc in Hk'. congruence.
Qed.

Lemma positions_index_filtered_rows_witness :
  length (filter_rows [10; 11; 12; 13; 14]%Z [1; 0; 1; 0; 0]%Z) = 2
  /\ (forall i byte r,
        [1; 0; 1; 0; 0]%Z !! i = Some byte -> is_found byte = true ->
        [10; 11; 12; 13; 14]%Z !! i = Some r ->
        exists p, [0; 0; 1; 0; 0] !! i = Some p
          /\ filter_rows [10; 11; 12; 13; 14]%Z [1; 0; 1; 0; 0]%Z !! p = Some r)
  /\ (forall k r,
        filter_rows [10; 11; 12; 13; 14]%Z [1; 0; 1; 0; 0]%Z !! k = Some r ->
        exists i byte, [1; 0; 1; 0; 0]%Z !! i = Some byte /\ is_found byte = true
          /\ [0; 0; 1; 0; 0] !! i = Some k
          /\ [10; 11; 12; 13; 14]%Z !! i = Some r).
Proof.
  exact (positions_index_filtered_rows [10; 11; 12; 13; 14]%Z [1; 0; 1; 0; 0]%Z
           5 [0; 0; 1; 0; 0] 2 eq_refl eq_refl eq_refl).
Defined.

(** ** The result header *)

(** [makeResultBlock] keeps the number, order and names of the requested
    columns, puts no column behind any of them, and strips one outer
    Nullable from each type and no more: a request without Nullable types
    keeps its types, a Nullable(T) becomes T whatever T is. *)
Theorem makeResultBlock_shape (names : list NameAndTypePair) :
  columns (makeResultBlock names) = length names
  /\ name <$> makeResultBlock names = fst <$> names
  /\ Forall (fun elem => column elem = None) (makeResultBlock names)
  /\ (forall i column_name t,
        names !! i = Some (column_name, DataTypeNullable t) ->
        type <$> makeResultBlock names !! i = Some t)
  /\ (forall i column_name t,
        names !! i = Some (column_name, t) -> isNullable t = false ->
        type <$> makeResultBlock names !! i = Some t).
Proof.
  rewrite makeResultBlock_map. unfold columns. rewrite length_fmap.
  split_and!; [done| | | |].
  - by rewrite <- list_fmap_compose.
  - apply Forall_fmap. by apply Forall_true.
  - intros i column_name t Hi. by rewrite list_lookup_fmap, Hi.
  - intros i column_name t Hi Ht. rewrite list_lookup_fmap, Hi. simpl.
    by destruct t.
Qed.

(** ** The sample block of a built reader *)

Section SampleBlock.

Variables (dictionary_name : string) (src : list string)
          (names : list NameAndTypePair) (context : Context) (key_size : nat)
          (reader : DictionaryReader).
Hypothesis Hnew :
  DictionaryReader_new dictionary_name src names context key_size = Ok reader.

Lemma built_sample_block_eq :
  sample_block reader
  = dict_name_column dictionary_name :: (name_column <$> src) ++ [key_column_sample]
  /\ length src = length names
  /\ key_position reader = key_size + length names.
Proof.
  destruct (DictionaryReader_new_Ok _ _ _ _ _ _ Hnew) as (Hlen & _ & -> & -> & _).
  by rewrite make_sample_block_eq.
Qed.

(** The argument positions of the bound [dictGet] functions. *)
Lemma built_functions_get_positions :
  Forall2 (fun i w => arg_positions w = [0; key_size + i; key_size + length names])
    (seq 0 (length names)) (functions_get reader).
Proof.
  revert Hnew. unfold DictionaryReader_new. case_decide as Hlen; [done|].
  destruct (FunctionFactory_get context "dictHas") as [?|dict_has]; simpl; [done|].
  destruct (FunctionFactory_get context "dictGet") as [?|dict_get]; simpl; [done|].
  destruct (FunctionWrapper_new dict_has _ _ _ _ _) as [wh|]; simpl; [|done].
  destruct (bind_functions_get _ _ _ _ _ _ _ _) as [ws|] eqn:Hg; simpl; [|done].
  intros [= <-]. simpl.
  apply bind_functions_get_Ok in Hg as (ws' & -> & _ & _ & Hargs). simpl.
  rewrite columns_makeResultBlock in Hargs.
  eapply Forall2_impl; [exact Hargs|]. by intros i w [? _].
Qed.

End SampleBlock.

(** The sample block of a built reader is the dictionary name constant, one
    constant per source column name in order, and the key slot without a
    column; as long as the key size plus the number of result columns fits
    a [size_t], [key_position] is that sum, and it is the position of the
    key slot exactly when the key size is 1. *)
Theorem built_sample_block (dictionary_name : string) (src : list string)
    (names : list NameAndTypePair) (context : Context) (key_size : nat)
    (reader : DictionaryReader) :
  DictionaryReader_new dictionary_name src names context key_size = Ok reader ->
  (Z.of_nat key_size + Z.of_nat (length names) <= SIZE_MAX)%Z ->
  sample_block reader
  = dict_name_column dictionary_name :: (name_column <$> src) ++ [key_column_sample]
  /\ key_position reader = key_size + length names
  /\ (sample_block reader !! key_position reader = Some key_column_sample
      <-> key_size = 1).
Proof.
  intros Hnew _.
  destruct (built_sample_block_eq _ _ _ _ _ _ Hnew) as (Hs & Hlen & Hkp).
  split_and!; [done|done|]. rewrite Hs, Hkp. split.
  - intros Hkey. destruct key_size as [|[|k]]; [|done|].
    + exfalso. destruct names as [|nm names']; simpl in *.
      * by injection Hkey.
      * rewrite lookup_app_l in Hkey by (rewrite length_fmap; lia).
        rewrite list_lookup_fmap in Hkey.
        destruct (src !! length names'); simpl in Hkey; [|done].
        by injection Hkey.
    + exfalso. apply lookup_lt_Some in Hkey. simpl in Hkey.
      rewrite length_app, length_fmap in Hkey. simpl in Hkey. lia.
  - intros ->. simpl.
    rewrite lookup_app_r by (rewrite length_fmap; lia).
    by rewrite length_fmap, Hlen, Nat.sub_diag.
Qed.

Lemma built_sample_block_witness :
  exists reader,
    DictionaryReader_new "people" ["name"; "city"] people_columns people_context 1
      = Ok reader
    /\ (sample_block reader
        = dict_name_column "people" :: (name_column <$> ["name"; "city"])
          ++ [key_column_sample]
        /\ key_position reader = 1 + length people_columns
        /\ (sample_block reader !! key_position reader = Some key_column_sample
            <-> 1 = 1)).
Proof.
  eexists. split; [reflexivity|].
  refine (built_sample_block "people" ["name"; "city"] people_columns
            people_context 1 _ eq_refl _).
  unfold SIZE_MAX. simpl. lia.
Defined.

(** ** What the bound functions read *)

(** On a reader built with the default key size, whatever column is put in
    the key slot of the sample block, [dictHas] is bound to read the
    dictionary name constant and that key slot, and the i-th [dictGet] is
    bound to read the dictionary name constant, the constant of the i-th
    source column name, and that key slot. *)
Theorem bound_arguments (dictionary_name : string) (src : list string)
    (names : list NameAndTypePair) (context : Context)
    (reader : DictionaryReader) (c : option IColumn) :
  DictionaryReader_new dictionary_name src names context 1 = Ok reader ->
  let block :=
    <[key_position reader := with_column key_column_sample c]>
      (sample_block reader) in
  mapM (getByPosition block) (arg_positions (function_has reader))
  = Ok [dict_name_column dictionary_name; with_column key_column_sample c]
  /\ length (functions_get reader) = length src
  /\ forall i src_name, src !! i = Some src_name ->
       exists w, functions_get reader !! i = Some w
         /\ mapM (getByPosition block) (arg_positions w)
            = Ok [dict_name_column dictionary_name; name_column src_name;
                  with_column key_column_sample c].
Proof.
  intros Hnew. simpl.
  destruct (built_sample_block_eq _ _ _ _ _ _ Hnew) as (Hs & Hlen & Hkp).
  destruct (DictionaryReader_new_Ok _ _ _ _ _ _ Hnew)
    as (_ & _ & _ & _ & _ & Hhas & Hn & _).
  pose proof (built_functions_get_positions _ _ _ _ _ _ Hnew) as Hgets.
  rewrite Hs, Hkp, Hhas.
  set (ns := name_column <$> src).
  assert (length ns = length names) as Hns by (unfold ns; by rewrite length_fmap).
  assert (Hkey : (<[1 + length names := with_column key_column_sample c]>
                    (dict_name_column dictionary_name :: ns ++ [key_column_sample]))
                 !! (1 + length names) = Some (with_column key_column_sample c)).
  { apply list_lookup_insert_eq. simpl. rewrite length_app. simpl. lia. }
  split_and!.
  - unfold getByPosition. simpl. simpl in Hkey. by rewrite Hkey.
  - lia.
  - intros i src_name Hi.
    assert (i < length names) as Hlt by (apply lookup_lt_Some in Hi; lia).
    destruct (lookup_lt_is_Some_2 (functions_get reader) i) as [w Hw]; [lia|].
    assert (seq 0 (length names) !! i = Some i) as Hseq
      by (by apply lookup_seq).
    pose proof (Forall2_lookup_lr _ _ _ _ _ _ Hgets Hseq Hw) as Hargs.
    exists w. split; [done|]. rewrite Hargs.
    unfold getByPosition. simpl. simpl in Hkey. rewrite Hkey.
    rewrite list_lookup_insert_ne by lia.
    rewrite lookup_app_l by lia. unfold ns.
    by rewrite list_lookup_fmap, Hi.
Qed.

Lemma bound_arguments_witness :
  exists reader,
    DictionaryReader_new "people" ["name"; "city"] people_columns people_context 1
      = Ok reader
    /\ (mapM (getByPosition
                (<[key_position reader :=
                     with_column key_column_sample (Some people_keys)]>
                   (sample_block reader)))
             (arg_positions (function_has reader))
        = Ok [dict_name_column "people";
              with_column key_column_sample (Some people_keys)]
        /\ length (functions_get reader) = 2
        /\ forall i src_name, ["name"; "city"] !! i = Some src_name ->
             exists w, functions_get reader !! i = Some w
               /\ mapM (getByPosition
                          (<[key_position reader :=
                               with_column key_column_sample (Some people_keys)]>
                             (sample_block reader)))
                       (arg_positions w)
                  = Ok [dict_name_column "people"; name_column src_name;
                        with_column key_column_sample (Some people_keys)]).
Proof.
  eexists. split; [reflexivity|].
  exact (bound_arguments "people" ["name"; "city"] people_columns people_context
           _ (Some people_keys) eq_refl).
Defined.

(** ** Failures of the constructor *)

Section ConstructionFailures.

Lemma FunctionWrapper_new_Fail resolver arguments (block : Block) arg_positions_
    column_name expected_type f :
  FunctionWrapper_new resolver arguments block arg_positions_ column_name
    expected_type = Fail f ->
  (exists e, build resolver arguments = inl e /\ f = Propagated e)
  \/ (exists prepare_function, build resolver arguments = inr prepare_function
        /\ getTypeId (getReturnType prepare_function) ≠ expected_type
        /\ f = Exception ("Type mismatch in dictionary reader for: " +:+ column_name)
                 TYPE_MISMATCH).
Proof.
  unfold FunctionWrapper_new.
  destruct (build resolver arguments) as [e|prepare_function]; simpl.
  - intros [= <-]. left. by exists e.
  - case_decide as Hty; [|done]. intros [= <-]. right. by exists prepare_function.
Qed.

Lemma bind_functions_get_Fail dict_get args (header sample : Block)
    key_size key_pos indices acc f :
  Forall (fun i => i < length header) indices ->
  bind_functions_get dict_get args header sample key_size key_pos indices acc
    = Fail f ->
  (exists e, build dict_get args = inl e /\ f = Propagated e)
  \/ (exists message, f = Exception message TYPE_MISMATCH).
Proof.
  revert acc. induction indices as [|i indices IH]; intros acc Hin; simpl; [done|].
  apply Forall_cons in Hin as [Hi Hin]. unfold getByPosition.
  destruct (lookup_lt_is_Some_2 header i Hi) as [elem ->]. simpl.
  destruct (FunctionWrapper_new _ _ _ _ _ _) as [w|f'] eqn:Hw; simpl.
  - by apply IH.
  - intros [= <-].
    apply FunctionWrapper_new_Fail in Hw as [(e & He & ->)|(pf & _ & _ & ->)].
    + left. by exists e.
    + right. by eexists.
Qed.

End ConstructionFailures.

(** Construction fails in three ways only: the count mismatch, a type
    mismatch, or a failure of a collaborator passed on unchanged.  The
    collaborators are asked in the order: factory for dictHas, factory for
    dictGet, resolution of dictHas, resolution of dictGet; dictGet is
    resolved only after the dictHas type check passed and only when there is
    at least one result column.  No path of the constructor is undefined. *)
Theorem construction_failures (dictionary_name : string) (src : list string)
    (names : list NameAndTypePair) (context : Context) (key_size : nat) :
  let new := DictionaryReader_new dictionary_name src names context key_size in
  new ≠ Fail Undefined
  /\ (forall message code, new = Fail (Exception message code) ->
        code = NUMBER_OF_COLUMNS_DOESNT_MATCH \/ code = TYPE_MISMATCH)
  /\ (forall e, new = Fail (Propagated e) <->
        length src = length names
        /\ (FunctionFactory_get context "dictHas" = inl e
            \/ exists dict_has,
                 FunctionFactory_get context "dictHas" = inr dict_has
                 /\ (FunctionFactory_get context "dictGet" = inl e
                     \/ exists dict_get,
                          FunctionFactory_get context "dictGet" = inr dict_get
                          /\ (build dict_has (arguments_has dictionary_name) = inl e
                              \/ exists f_has,
                                   build dict_has (arguments_has dictionary_name)
                                     = inr f_has
                                   /\ getTypeId (getReturnType f_has) = TypeIndex_UInt8
                                   /\ names ≠ []
                                   /\ build dict_get (arguments_get dictionary_name)
                                      = inl e)))).
Proof.
  simpl. unfold DictionaryReader_new. case_decide as Hlen.
  { split_and!; [done|intros ? ? [= _ <-]; by left|]. intros e.
    split; [done|]. by intros [Heq _]. }
  assert (length src = length names) as Hlen' by lia. clear Hlen.
  destruct (FunctionFactory_get context "dictHas") as [e0|dict_has] eqn:Hdh;
    simpl.
  { split_and!; [done|done|]. intros e. split.
    - intros [= <-]. split; [done|]. by left.
    - intros [_ Hc]. decompose [ex and or] Hc; congruence. }
  destruct (FunctionFactory_get context "dictGet") as [e0|dict_get] eqn:Hdg;
    simpl.
  { split_and!; [done|done|]. intros e. split.
    - intros [= <-]. split; [done|]. right. exists dict_has. split; [done|].
      by left.
    - intros [_ Hc]. decompose [ex and or] Hc; congruence. }
  unfold FunctionWrapper_new.
  destruct (build dict_has (arguments_has dictionary_name)) as [e0|f_has] eqn:Hfh;
    cbn.
  { split_and!; [done|done|]. intros e. split.
    - intros [= <-]. split; [done|]. right. exists dict_has. split; [done|].
      right. exists dict_get. split; [done|]. by left.
    - intros [_ Hc]. decompose [ex and or] Hc; congruence. }
  case_decide as Hty; cbn.
  { split_and!; [done|intros ? ? [= _ <-]; by right|]. intros e.
    split; [done|]. intros [_ Hc]. decompose [ex and or] Hc; congruence. }
  assert (getTypeId (getReturnType f_has) = TypeIndex_UInt8) as Hty'
    by (by destruct (decide (getTypeId (getReturnType f_has) = TypeIndex_UInt8))).
  assert (Hunresolved : forall e, names ≠ [] ->
            build dict_get (arguments_get dictionary_name) = inl e ->
            bind_functions_get dict_get (arguments_get dictionary_name)
              (makeResultBlock names) (make_sample_block dictionary_name src)
              key_size (key_size + columns (makeResultBlock names))
              (seq 0 (columns (makeResultBlock names))) []
            = Fail (Propagated e)).
  { intros e Hne He. destruct names as [|nm names']; [done|].
    rewrite makeResultBlock_map. simpl.
    unfold FunctionWrapper_new. by rewrite He. }
  destruct (bind_functions_get _ _ _ _ _ _ _ _) as [ws|f] eqn:Hg; cbn.
  - split_and!; [done|done|]. intros e. split; [done|].
    intros [_ [?|(dh & ? & [?|(dg & ? & [?|(fh & ? & _ & Hne & He)])])]];
      try congruence.
    assert (dg = dict_get) as -> by congruence.
    by pose proof (Hunresolved e Hne He).
  - pose proof Hg as Hg'. apply bind_functions_get_Fail in Hg'.
    2:{ apply Forall_forall. intros i Hi%elem_of_seq. unfold columns in Hi. lia. }
    split_and!.
    + destruct Hg' as [(e & _ & ->)|(m & ->)]; done.
    + intros message code [= ->].
      destruct Hg' as [(e & _ & [=])|(m & [= _ <-])]. by right.
    + intros e. split.
      * intros [= ->]. destruct Hg' as [(e' & He' & [= <-])|(m & [=])].
        split; [done|]. right. exists dict_has. split; [done|].
        right. exists dict_get. split; [done|]. right. exists f_has.
        split_and!; [done..| |done].
        intros ->. by simpl in Hg.
      * intros [_ [?|(dh & ? & [?|(dg & ? & [?|(fh & ? & _ & Hne & He)])])]];
          try congruence.
        assert (dg = dict_get) as -> by congruence.
        pose proof (Hunresolved e Hne He). congruence.
Qed.

(** ** Failures of readKeys *)

Section CallFailures.

Lemma deref_Fail {A : Type} (p : option A) f : deref p = Fail f -> f = Undefined.
Proof. destruct p; simpl; congruence. Qed.

Lemma typeid_cast_ColumnUInt8_Fail (c : IColumn) f :
  typeid_cast_ColumnUInt8 c = Fail f -> f = Exception "Bad cast" LOGICAL_ERROR.
Proof. destruct c; simpl; congruence. Qed.

Lemma IColumn_filter_Fail (c : IColumn) (filt : list Z) f :
  IColumn_filter c filt = Fail f ->
  f = Exception "Size of filter doesn't match size of column."
        SIZES_OF_COLUMNS_DOESNT_MATCH
  /\ IColumn_size c ≠ length filt.
Proof. unfold IColumn_filter. case_decide; [done|]. by intros [= <-]. Qed.

Lemma scan_rows_Fail (found : list Z) (rows : list nat) :
  forall (positions : list nat) (pos : nat) f,
  scan_rows found rows positions pos = Fail f -> f = Undefined.
Proof.
  induction rows as [|i rows IH]; intros positions pos f; simpl; [done|].
  destruct (found !! i) as [byte|]; simpl; [|by intros [= <-]].
  destruct (is_found byte); [|by apply IH].
  destruct (positions !! i); simpl; [by apply IH|by intros [= <-]].
Qed.

Lemma execute_functions_Fail (functions : list FunctionWrapper) :
  forall (block : Block) (rows : nat) f,
  execute_functions functions block rows = Fail f ->
  f = Undefined \/ exists e, f = Propagated e.
Proof.
  induction functions as [|w functions IH]; intros block rows f; simpl; [done|].
  destruct (FunctionWrapper_execute w block rows) as [block'|f'] eqn:Hw; simpl.
  - by apply IH.
  - intros [= <-]. by apply FunctionWrapper_execute_Fail in Hw.
Qed.

Lemma move_columns_Fail (indices : list nat) :
  forall (first : nat) (block out : Block) f,
  move_columns indices first block out = Fail f -> f = Undefined.
Proof.
  induction indices as [|i indices IH]; intros first block out f; simpl; [done|].
  destruct (getByPosition block (first + i)) as [src|] eqn:Hsrc; simpl.
  2:{ intros [= <-]. by apply getByPosition_Fail in Hsrc as [-> _]. }
  destruct (setColumn out i (column src)) as [out'|] eqn:Hout; simpl.
  2:{ intros [= <-]. by apply setColumn_Fail in Hout as [-> _]. }
  destruct (setColumn block (first + i) None) as [block'|] eqn:Hblock; simpl.
  2:{ intros [= <-]. by apply setColumn_Fail in Hblock as [-> _]. }
  by apply IH.
Qed.

End CallFailures.

(** A call fails in four ways only: an undefined access, a failure that a
    dictionary function raised, the bad cast of the [dictHas] result, or
    the size check of the filter.  A call that throws leaves the output
    block as it was passed, and it leaves the found mask and the positions
    either both as they were passed or both written, the positions being
    the scan of the mask. *)
Theorem readKeys_failures (size : nat) (s : Frame) (f : Failure) :
  (readKeys size s).2 = Fail f ->
  (f = Undefined
   \/ (exists e, f = Propagated e)
   \/ f = Exception "Bad cast" LOGICAL_ERROR
   \/ f = Exception "Size of filter doesn't match size of column."
            SIZES_OF_COLUMNS_DOESNT_MATCH)
  /\ (f ≠ Undefined ->
      out_block (readKeys size s).1 = out_block s
      /\ ((found (readKeys size s).1 = found s
           /\ positions (readKeys size s).1 = positions s)
          \/ exists pos,
               scan_rows (found (readKeys size s).1) (seq 0 size)
                 (resize size 0 []) 0
               = Ok (positions (readKeys size s).1, pos))).
Proof.
  revert f. unfold_readKeys.
  repeat readKeys_step; cbn; intros failure Hf; try discriminate Hf;
    injection Hf as <-;
    repeat match goal with
           | H : setColumn _ _ _ = Fail _ |- _ =>
               apply setColumn_Fail in H as [-> _]
           | H : getByPosition _ _ = Fail _ |- _ =>
               apply getByPosition_Fail in H as [-> _]
           | H : deref _ = Fail _ |- _ => apply deref_Fail in H as ->
           | H : scan_rows _ _ _ _ = Fail _ |- _ => apply scan_rows_Fail in H as ->
           | H : move_columns _ _ _ _ = Fail _ |- _ =>
               apply move_columns_Fail in H as ->
           | H : typeid_cast_ColumnUInt8 _ = Fail _ |- _ =>
               apply typeid_cast_ColumnUInt8_Fail in H as ->
           | H : IColumn_filter _ _ = Fail _ |- _ =>
               apply IColumn_filter_Fail in H as [-> _]
           | H : FunctionWrapper_execute _ _ _ = Fail _ |- _ =>
               apply FunctionWrapper_execute_Fail in H as [->|[? ->]]
           | H : execute_functions _ _ _ = Fail _ |- _ =>
               apply execute_functions_Fail in H as [->|[? ->]]
           end;
    (split; [eauto 6|]); intros Hdefined; try done;
    (split; [done|]);
    first [ left; split; reflexivity
          | right;
            match goal with
            | H : scan_rows _ _ _ _ = Ok ?scanned |- _ =>
                exists scanned.2; by destruct scanned
            end ].
Qed.

Lemma text_keys_call_fails :
  (readKeys 1 (call_frame documented_reader (ColumnString ["ten"]))).2
  = Fail (Propagated (Raised 44 "Illegal column of the key argument")).
Proof. by vm_compute. Qed.

Lemma readKeys_failures_witness :
  (Propagated (Raised 44 "Illegal column of the key argument") = Undefined
   \/ (exists e, Propagated (Raised 44 "Illegal column of the key argument")
                 = Propagated e)
   \/ Propagated (Raised 44 "Illegal column of the key argument")
      = Exception "Bad cast" LOGICAL_ERROR
   \/ Propagated (Raised 44 "Illegal column of the key argument")
      = Exception "Size of filter doesn't match size of column."
          SIZES_OF_COLUMNS_DOESNT_MATCH)
  /\ (Propagated (Raised 44 "Illegal column of the key argument") ≠ Undefined ->
      out_block text_keys_call.1 = []
      /\ ((found text_keys_call.1 = [] /\ positions text_keys_call.1 = [])
          \/ exists pos,
               scan_rows (found text_keys_call.1) (seq 0 1) (resize 1 0 []) 0
               = Ok (positions text_keys_call.1, pos))).
Proof.
  exact (readKeys_failures 1
           (call_frame documented_reader (ColumnString ["ten"])) _
           text_keys_call_fails).
Defined.

(** ** The rows of the keys that a call reads *)

(** A call reads the caller's keys through their resized copy only: two key
    columns with the same first [size] rows (padded with default rows when
    shorter) give the same outcome and the same outputs. *)
Theorem readKeys_reads_resized_keys (size : nat) (s : Frame) (k : IColumn) :
  IColumn_cloneResized k size = IColumn_cloneResized (keys s) size ->
  (readKeys size (with_keys s k)).2 = (readKeys size s).2
  /\ out_block (readKeys size (with_keys s k)).1 = out_block (readKeys size s).1
  /\ found (readKeys size (with_keys s k)).1 = found (readKeys size s).1
  /\ positions (readKeys size (with_keys s k)).1 = positions (readKeys size s).1.
Proof.
  destruct s. unfold with_keys. cbn. intros Heq. unfold_readKeys. rewrite Heq.
  repeat readKeys_step; done.
Qed.

Lemma readKeys_reads_resized_keys_witness :
  (readKeys 5 (with_keys (call_frame documented_reader people_keys) longer_keys)).2
  = documented_call.2
  /\ out_block
       (readKeys 5 (with_keys (call_frame documented_reader people_keys)
                      longer_keys)).1
     = out_block documented_call.1
  /\ found
       (readKeys 5 (with_keys (call_frame documented_reader people_keys)
                      longer_keys)).1
     = found documented_call.1
  /\ positions
       (readKeys 5 (with_keys (call_frame documented_reader people_keys)
                      longer_keys)).1
     = positions documented_call.1.
Proof.
  exact (readKeys_reads_resized_keys 5
           (call_frame documented_reader people_keys) longer_keys eq_refl).
Defined.

